(* ===== verification/_CoqProject ===== *)
-Q . S2P
Prelude.v
Trig.v
GridMap.v
Draw.v
RayCaster.v
Motion.v
BirdsEye.v
Projector.v
Frame.v
