(* ===== verification/Prelude.v ===== *)
(** * A verification development of the Raycaster (src/src/main.cpp)

    The program is a Wolfenstein-style raycaster over a fixed 8x8 tile map,
    written in C++ against SFML.  Each iteration of the frame loop in
    [main] polls the events of its two windows, runs [handleInput] (keyboard
    movement with a per-axis collision check, mouse look), runs [castRays]
    (one ray march per screen column), then draws the map view
    ([renderBirdsEyeView]) and the first-person view ([renderPlayerView]:
    wall slices shaded by distance and a texture-mapped floor).

    ** Modelling choices shared by every file

    - C++ [float] is modelled by exact rationals [Q] ([float] below).  IEEE
      rounding is not modelled: every theorem is about the exact-arithmetic
      behaviour of the code.  In particular the loop counter
      [distanceToWall += 0.1f] is the exact sum [k/10].
    - The C++ conversion [(int)f] truncates toward zero; it is [f2i], written
      with [Z.quot] on the numerator and denominator.  [(float)n] is [i2f].
    - [cos] and [sin] of [<cmath>] are not code of this repository: they are
      an interface ([Trig.Trig]) whose only law is [cos t^2 + sin t^2 = 1]
      ([Trig.TrigLaws]); all theorems hold for every implementation of it.
      The witnesses use the rational half-angle parametrisation
      [Trig.ratTrig], which satisfies the law exactly.
    - [worldMap[x][y]] reads a C array; reading out of range is undefined
      behaviour, so the model's read [GridMap.cell_at] returns [option Z]
      and [None] marks an out-of-range read.  The safety theorems show that
      the code never performs one.
    - Partial computations (the ray-march [while] loop) take fuel and
      return [option]; the termination theorems show that the fuel chosen
      ([RayCaster.march_fuel] = 161) always suffices: the loop runs at most
      160 body iterations, since each adds 0.1 to a distance bounded by
      [maxDepth] = 16.

    ** Files (dependency order, see _CoqProject)

    - [Prelude] (this file): [float], [f2i], [i2f], the boolean comparison
      [Qltb], the [rc] hint database, the lemmas on truncation that every
      component uses.
    - [Trig]: the [cos]/[sin] interface, its law, bounds derived from it and
      the rational instance.
    - [GridMap]: [mapWidth], [mapHeight], [worldMap] (lines 6-18), the read
      [cell_at], the bounds test of [castRays] (line 132), well-formedness
      and the "border cells are walls" property of the map.
    - [RayCaster]: [castRays] (lines 112-147) as [rayAngle], [probe],
      [march_body], [march_loop], [marchRay], [castRay], [castRays]; the
      reference specification [first_stop] (the first sampled cell that is
      not open) and the refinement theorem relating the loop to it.
    - [Motion]: [handleInput] (lines 149-210): candidate position from the
      keys, the X-then-Y collision check, the static mouse state as a record
      threaded through the calls.
    - [Draw]: the SFML calls of the renderers ([clear], [draw] of a
      rectangle, circle, line or point, [display]) as the constructors of
      [DrawCmd], with the colours the code uses.  A renderer is the list of
      commands it issues, in order.
    - [BirdsEye]: [renderBirdsEyeView] (lines 32-70): the 64 cells, the
      player circle and one line per distance.
    - [Projector]: [renderPlayerView] (lines 72-110): wall height, slice
      position, shade, floor rows, inverse projection, texture coordinates
      and the commands of each column.
    - [Frame]: [main] (lines 212-246): window creation, the texture-load
      check, one loop iteration [frame] (event polling per window,
      [handleInput], [castRays], both renderers) and [loop] over the inputs
      of successive iterations; [reachable] is the inductive set of states
      the loop reaches.  The state of the program between iterations is
      [World]: the two windows' open flags, the player globals and the mouse
      state.  What SFML delivers in an iteration (events, keys, pointer) is
      an input, so a run is [loop] over a finite list of inputs, which is
      structural; [Running] is the status of a run whose inputs end while
      both windows are open.

    ** Theorems, by group

    - Ray caster: the loop terminates within the fuel, returns exactly one
      sample per column, equals the reference [first_stop]; each sample lies
      in [0.1, maxDepth]; a sample below [maxDepth] lies in a wall cell and
      every earlier sample in an open cell; leaving the grid first yields
      exactly [maxDepth]; an axis-aligned ray stops within one step (0.1)
      past the near face of the wall; on a map whose border cells are walls
      (the program's map) every ray cast from an open cell hits a wall
      within distance 12.
    - Motion: one call of [handleInput] from a position in an open cell of a
      map with wall borders reads the map only in range and ends in an open
      cell (invariant); a wall on the X axis keeps X while Y is still tried;
      the Y test reads the cell at the new X; the first mouse event never
      rotates.
    - Frame loop: every state the loop reaches has the player in an empty
      cell (rule induction on [reachable]); every run, for any inputs, reads
      the map, the distances and the image only in range and never exits
      with -1 once a non-empty texture is loaded; the loop exits after the
      frame in which either window is closed and otherwise runs one frame
      per iteration, the player's angle then being 0.002 times the
      pointer's total horizontal displacement; [main] returns -1 exactly
      when the texture fails to load, after creating both windows.
    - Renderers: wall height and shade are antitone in distance and bounded
      for the distances the caster produces, the floor loop never divides by
      zero, the float-to-int conversions of the texel computation stay in
      the 32-bit range, the texel index is the unsigned wrap (the floor
      modulo for power-of-two sizes, misaligned left of 0 for other sizes),
      periodic on non-negative coordinates but not across 0, and the floor overdraws
      the last row of odd-height slices; the map view draws each cell in its
      colour, and each ray line from the circle's centre to the point the
      caster reached, without the centre's offset.

    - Representation independence: [probe], the ray march, [marchRay] and
      [castRays] are [Proper] for [Qeq] (instances in [RayCaster]), so the
      results depend on the values of the player's coordinates and angle,
      not on the fractions that represent them.

    ** Bounds and fuel

    [march_fuel] = 161 iterations suffice for the ray march (160 body steps
    of 0.1 up to [maxDepth] = 16, plus the final guard test).  Every other
    loop of the program is over a fixed range ([seqZ]) or over the list of
    inputs, so it is structural.

    ** Not modelled

    IEEE rounding of [float] (see above); the bodies of SFML's window,
    event and drawing calls and of [Image::getPixel] (only the commands the
    code sends, and the pixel function of a [Texture] record, are
    modelled); [setMouseCursorVisible], which changes no state of the
    program. *)

From Stdlib Require Export QArith Qround Qabs Lqa ZArith Lia.
From stdpp Require Export base list option decidable.

Declare Scope rc_scope.
Delimit Scope rc_scope with rc.
Open Scope Q_scope.

(** C++ [float], modelled by exact rationals. *)
Abbreviation float := Q (only parsing).

(** [(int)f]: conversion of a float to an int, truncating toward zero. *)
Definition f2i (q : float) : Z := Z.quot (Qnum q) (Zpos (Qden q)).

(** [(float)n]: conversion of an int to a float. *)
Definition i2f (z : Z) : float := inject_Z z.

(** The strict comparison [a < b] of two floats, as a boolean. *)
Definition Qltb (a b : float) : bool := negb (Qle_bool b a).

Notation "a <? b" := (Qltb a b) (at level 70) : rc_scope.
Notation "'(int)' q" := (f2i q) (at level 10, q at level 9) : rc_scope.

Create HintDb rc.
Create Rewrite HintDb rc_rw.

(** Turn the images of the literals 0 and 1 under [inject_Z] into the
    literals, so that [lra] sees constants. *)
Ltac qconst :=
  change (inject_Z 0) with 0 in *; change (inject_Z 1) with 1 in *.

Lemma Qltb_iff a b : Qltb a b = true <-> a < b.
Proof.
  unfold Qltb. rewrite negb_true_iff.
  split; intros H.
  - apply Qnot_le_lt. intros Hle. apply Qle_bool_iff in Hle. congruence.
  - destruct (Qle_bool b a) eqn:E; [|reflexivity].
    apply Qle_bool_iff in E. exfalso. lra.
Qed.

Lemma Qltb_false a b : Qltb a b = false <-> b <= a.
Proof.
  unfold Qltb. rewrite negb_false_iff. apply Qle_bool_iff.
Qed.

#[export] Instance Qltb_proper : Proper (Qeq ==> Qeq ==> eq) Qltb.
Proof.
  intros a a' Ha b b' Hb. unfold Qltb. f_equal.
  apply Bool.eq_true_iff_eq. rewrite !Qle_bool_iff, Ha, Hb. reflexivity.
Qed.

(** ** Truncation toward zero *)

Lemma f2i_floor q : 0 <= q -> f2i q = Qfloor q.
Proof.
  destruct q as [n d]. unfold f2i, Qfloor, Qle. simpl. intros H.
  apply Z.quot_div_nonneg; lia.
Qed.

Lemma f2i_ceiling q : q <= 0 -> f2i q = Qceiling q.
Proof.
  destruct q as [n d]. unfold f2i, Qceiling, Qfloor, Qle. simpl. intros H.
  rewrite <- (Z.opp_involutive n) at 1. rewrite Z.quot_opp_l by lia.
  f_equal. apply Z.quot_div_nonneg; lia.
Qed.

Lemma f2i_inject z : f2i (inject_Z z) = z.
Proof. unfold f2i. simpl. apply Z.quot_1_r. Qed.

#[export] Instance f2i_proper : Proper (Qeq ==> eq) f2i.
Proof.
  intros a b Hab. destruct (Qlt_le_dec a 0) as [Ha|Ha].
  - rewrite !f2i_ceiling by lra. now rewrite Hab.
  - rewrite !f2i_floor by lra. now rewrite Hab.
Qed.

(** Lower bounds: for [z >= 1], [(int)q >= z] exactly when [q >= z]. *)
Lemma f2i_ge_iff q z : (1 <= z)%Z -> (z <= f2i q)%Z <-> inject_Z z <= q.
Proof.
  intros Hz. pose proof Hz as HzQ. rewrite Zle_Qle in HzQ.
  destruct (Qlt_le_dec q 0) as [Hq|Hq].
  - rewrite f2i_ceiling by lra.
    pose proof (Qceiling_resp_le q 0 ltac:(lra)) as Hc.
    change (Qceiling 0) with 0%Z in Hc. split; intros; [lia|]. qconst. exfalso. lra.
  - rewrite f2i_floor by lra. split; intros H.
    + apply Qle_trans with (inject_Z (Qfloor q)); [|apply Qfloor_le].
      now rewrite <- Zle_Qle.
    + rewrite <- (Qfloor_Z z). now apply Qfloor_resp_le.
Qed.

(** Upper bounds: for [z >= 0], [(int)q <= z] exactly when [q < z + 1]. *)
Lemma f2i_le_iff q z : (0 <= z)%Z -> (f2i q <= z)%Z <-> q < inject_Z (z + 1).
Proof.
  intros Hz. split; intros H.
  - destruct (Qlt_le_dec q 1) as [Hq|Hq].
    + rewrite inject_Z_plus. rewrite Zle_Qle in Hz. qconst. lra.
    + apply Qnot_le_lt. intros Hle.
      apply (f2i_ge_iff q (z + 1)) in Hle; lia.
  - destruct (Z_le_gt_dec (f2i q) z) as [|Hgt]; [assumption|].
    exfalso. assert (Hge : (z + 1 <= f2i q)%Z) by lia.
    apply f2i_ge_iff in Hge; [lra|lia].
Qed.

(** A truncated value is non-negative exactly when the float exceeds -1. *)
Lemma f2i_nonneg_iff q : (0 <= f2i q)%Z <-> -1 < q.
Proof.
  destruct (Qlt_le_dec q 0) as [Hq|Hq].
  - rewrite f2i_ceiling by lra. split; intros H.
    + pose proof (Qceiling_lt q) as Hc.
      assert (Hm : (-1 <= Qceiling q - 1)%Z) by lia.
      rewrite Zle_Qle in Hm.
      change (inject_Z (-1)) with (-1) in Hm. lra.
    + assert (Hle : q <= 0) by lra. apply Qceiling_resp_le in Hle.
      change (Qceiling 0) with 0%Z in Hle.
      destruct (Z.eq_dec (Qceiling q) 0%Z) as [E|E]; [lia|].
      assert (Hlt : (Qceiling q <= -1)%Z) by lia.
      pose proof (Qle_ceiling q) as Hc. rewrite Zle_Qle in Hlt.
      change (inject_Z (-1)) with (-1) in Hlt. lra.
  - rewrite f2i_floor by lra. split; intros; [lra|].
    change 0%Z with (Qfloor 0). now apply Qfloor_resp_le.
Qed.

Lemma f2i_mono a b : a <= b -> (f2i a <= f2i b)%Z.
Proof.
  intros Hab. destruct (Qlt_le_dec b 0) as [Hb|Hb].
  - rewrite !f2i_ceiling by lra. now apply Qceiling_resp_le.
  - destruct (Qlt_le_dec a 0) as [Ha|Ha].
    + rewrite f2i_ceiling, f2i_floor by lra.
      pose proof (Qceiling_resp_le a 0 ltac:(lra)).
      pose proof (Qfloor_resp_le 0 b Hb).
      change (Qceiling 0) with 0%Z in *. change (Qfloor 0) with 0%Z in *. lia.
    + rewrite !f2i_floor by lra. now apply Qfloor_resp_le.
Qed.

(** The cell index of a coordinate lies in [0, n) exactly when the
    coordinate lies in (-1, n): the truncation maps (-1, 0) to 0. *)
Lemma f2i_range q (n : Z) :
  (1 <= n)%Z -> (0 <= f2i q < n)%Z <-> -1 < q < inject_Z n.
Proof.
  intros Hn. split; intros [H1 H2]; (split; [now apply f2i_nonneg_iff|]).
  - assert (H3 : (f2i q <= n - 1)%Z) by lia.
    apply f2i_le_iff in H3; [|lia]. now replace (n - 1 + 1)%Z with n in H3 by lia.
  - enough (f2i q <= n - 1)%Z by lia.
    apply f2i_le_iff; [lia|]. now replace (n - 1 + 1)%Z with n by lia.
Qed.

Lemma inject_Z_minus1 a : inject_Z (a - 1) = inject_Z a - 1.
Proof. unfold Z.sub. rewrite inject_Z_plus. reflexivity. Qed.

(** [(float)] of a difference of ints. *)
Lemma i2f_sub a b : i2f (a - b) == i2f a - i2f b.
Proof. unfold i2f, Z.sub. rewrite inject_Z_plus, inject_Z_opp. ring. Qed.

(** The default of [last] matters only for the empty list. *)
Lemma last_default_irrel {A} (l : list A) (d1 d2 : A) : l <> [] -> List.last l d1 = List.last l d2.
Proof.
  induction l as [|b l IH]; intros Hne; [congruence|].
  destruct l as [|c l]; [reflexivity|]. apply IH. discriminate.
Qed.

(** The last element of [a :: l] is the last of [l], or [a]. *)
Lemma last_cons_default {A} (a d : A) l : List.last (a :: l) d = List.last l a.
Proof. destruct l as [|b l]; [reflexivity|]. change (List.last (b :: l) d = List.last (b :: l) a). apply last_default_irrel. discriminate. Qed.

(** Integer inequalities seen in [Q]. *)
Lemma inject_Z_lt_succ a b : (a < b)%Z -> inject_Z a + 1 <= inject_Z b.
Proof.
  intros H. assert (H' : (a + 1 <= b)%Z) by lia.
  rewrite Zle_Qle, inject_Z_plus in H'. exact H'.
Qed.

(** A decidable property checked on [a .. a + n - 1] by evaluation. *)
Lemma forallb_seq_spec (P : nat -> Prop) `{forall i, Decision (P i)} a n :
  forallb (fun i => bool_decide (P i)) (seq a n) = true ->
  forall i, (a <= i < a + n)%nat -> P i.
Proof.
  intros Hall i Hi. rewrite forallb_forall in Hall.
  apply (bool_decide_eq_true_1 (P i)). apply Hall. apply in_seq. lia.
Qed.

#[export] Hint Resolve f2i_mono : rc.
#[export] Hint Rewrite f2i_inject : rc_rw.

(** [inject_Z] of a literal computes: used to turn [inject_Z 8] into [8]. *)
Ltac qnorm := unfold i2f in *; simpl inject_Z in *.
