(* ===== verification/Trig.v ===== *)
(** * The [cos]/[sin] interface

    [castRays], [handleInput], [renderBirdsEyeView] and [renderPlayerView]
    call [cos] and [sin] of [<cmath>], which are not code of this
    repository.  The components are stated against the class [Trig]; the
    properties their theorems use are the laws of [TrigLaws]:
    [cos t ^ 2 + sin t ^ 2 = 1], and that [cos] and [sin] are functions of
    the value of their argument ([Proper] for [Qeq]).  From the first
    this file derives the bounds [|cos t| <= 1], [|sin t| <= 1] and the
    fact that one of the two has magnitude at least 1/2.  [ratTrig] is a rational implementation
    (the half-angle parametrisation, exact on the law) used by the
    witnesses. *)

From S2P Require Import Prelude.
From Stdlib Require Import Qfield.

Class Trig := {
  cos : float -> float;
  sin : float -> float
}.

Class TrigLaws (T : Trig) := {
  pythagoras : forall t, cos t * cos t + sin t * sin t == 1;
  cos_proper :: Proper (Qeq ==> Qeq) cos;
  sin_proper :: Proper (Qeq ==> Qeq) sin
}.

Section Bounds.
Context {T : Trig} {TL : TrigLaws T}.

Lemma cos_bound t : -1 <= cos t <= 1.
Proof. pose proof (pythagoras t). split; nra. Qed.

Lemma sin_bound t : -1 <= sin t <= 1.
Proof. pose proof (pythagoras t). split; nra. Qed.

(** One of the two components of a unit direction has magnitude at
    least 1/2. *)
Lemma trig_dominant t :
  (1 # 2 <= cos t \/ cos t <= -(1 # 2)) \/ (1 # 2 <= sin t \/ sin t <= -(1 # 2)).
Proof.
  pose proof (pythagoras t).
  destruct (Qlt_le_dec (cos t) (1 # 2)), (Qlt_le_dec (-(1 # 2)) (cos t)),
    (Qlt_le_dec (sin t) (1 # 2)), (Qlt_le_dec (-(1 # 2)) (sin t));
    try tauto; exfalso; nra.
Qed.
End Bounds.

#[export] Hint Resolve cos_bound sin_bound : rc.

(** ** A rational implementation *)

Definition half_cos (t : float) : float :=
  let u := t / 2 in (1 - u * u) / (1 + u * u).

Definition half_sin (t : float) : float :=
  let u := t / 2 in (2 * u) / (1 + u * u).

Definition ratTrig : Trig := {| cos := half_cos; sin := half_sin |}.

Lemma ratTrig_laws : TrigLaws ratTrig.
Proof.
  constructor.
  - intros t. simpl. unfold half_cos, half_sin. field. intros H. nra.
  - intros a b Hab. simpl. unfold half_cos. cbv zeta. now rewrite Hab.
  - intros a b Hab. simpl. unfold half_sin. cbv zeta. now rewrite Hab.
Qed.
