(* ===== verification/GridMap.v ===== *)
(** * The grid map (src/src/main.cpp, lines 5-18)

    [worldMap] is the program's [int worldMap[8][8]], indexed as the code
    indexes it: [worldMap[x][y]] is element [y] of row [x] of the
    initialiser.  The read [cell_at] returns [None] exactly where the C
    read would be out of range (undefined behaviour).  [oob] is the bounds
    test of [castRays] (line 132).  [map_wf] says a map has the shape of the
    C array; [walled] says every cell that is not a wall (value 1) lies in
    the interior, i.e. the border of the arena is closed, as it is for
    [worldMap].  The ray caster and the motion handler are stated for any
    map satisfying these, and instantiated at [worldMap]. *)

From S2P Require Import Prelude.

Local Open Scope Z_scope.

Definition mapWidth : Z := 8.
Definition mapHeight : Z := 8.

(** ** Global constants (lines 20-30) *)

Definition fov : float := (314159 # 100000) / 4.
Definition moveSpeed : float := 5 # 100.
Definition rotationSpeed : float := 7 # 1000.
Definition maxDepth : float := 16.
Definition screenWidth : Z := 800.
Definition screenHeight : Z := 400.

Definition worldMap : list (list Z) :=
  [[1; 1; 1; 1; 1; 1; 1; 1];
   [1; 0; 0; 0; 0; 0; 0; 1];
   [1; 0; 0; 0; 0; 0; 0; 1];
   [1; 0; 0; 0; 1; 0; 0; 1];
   [1; 0; 0; 0; 1; 0; 0; 1];
   [1; 0; 1; 0; 0; 0; 0; 1];
   [1; 0; 1; 0; 0; 0; 0; 1];
   [1; 1; 1; 1; 1; 1; 1; 1]].

(** A map of the same shape with no wall at all, used to exercise the
    ray caster's out-of-grid branch (the code must tolerate any map). *)
Definition emptyArena : list (list Z) := replicate 8 (replicate 8 0).

(** [m[x][y]]; [None] is a read outside the array. *)
Definition cell_at (m : list (list Z)) (x y : Z) : option Z :=
  if bool_decide (0 <= x /\ 0 <= y)
  then m !! Z.to_nat x ≫= fun row => row !! Z.to_nat y
  else None.

(** [testX < 0 || testX >= mapWidth || testY < 0 || testY >= mapHeight]. *)
Definition oob (testX testY : Z) : bool :=
  (testX <? 0) || (mapWidth <=? testX) || (testY <? 0) || (mapHeight <=? testY).

Definition map_wf (m : list (list Z)) : Prop :=
  length m = Z.to_nat mapWidth /\
  Forall (fun row => length row = Z.to_nat mapHeight) m.

#[export] Instance map_wf_dec m : Decision (map_wf m).
Proof. unfold map_wf. apply _. Defined.

Definition interior (x y : Z) : Prop :=
  1 <= x <= mapWidth - 2 /\ 1 <= y <= mapHeight - 2.

#[export] Instance interior_dec x y : Decision (interior x y).
Proof. unfold interior. apply _. Defined.

(** Every cell that is not a wall lies in the interior. *)
Definition walled (m : list (list Z)) : Prop :=
  forall x y v, cell_at m x y = Some v -> v <> 1 -> interior x y.

(** The executable check of [walled] over the 64 cells. *)
Definition walledb (m : list (list Z)) : bool :=
  forallb (fun x => forallb (fun y =>
    match cell_at m x y with
    | Some v => bool_decide (v = 1) || bool_decide (interior x y)
    | None => true
    end) (seqZ 0 mapHeight)) (seqZ 0 mapWidth).

(** ** Reads *)

Lemma cell_at_range m x y v :
  map_wf m -> cell_at m x y = Some v -> 0 <= x < mapWidth /\ 0 <= y < mapHeight.
Proof.
  intros [Hlen Hrows] H. unfold cell_at in H.
  case_bool_decide as Hxy; [|discriminate].
  destruct (m !! Z.to_nat x) as [row|] eqn:Hrow; simpl in H; [|discriminate].
  apply lookup_lt_Some in H. pose proof (lookup_lt_Some _ _ _ Hrow) as Hx.
  rewrite Forall_lookup in Hrows. specialize (Hrows _ _ Hrow).
  unfold mapWidth, mapHeight in *. lia.
Qed.

Lemma cell_at_defined m x y :
  map_wf m -> 0 <= x < mapWidth -> 0 <= y < mapHeight -> is_Some (cell_at m x y).
Proof.
  intros [Hlen Hrows] Hx Hy. unfold cell_at.
  rewrite bool_decide_eq_true_2 by lia.
  destruct (lookup_lt_is_Some_2 m (Z.to_nat x)) as [row Hrow];
    [unfold mapWidth in *; lia|].
  rewrite Hrow. simpl. apply lookup_lt_is_Some_2.
  rewrite Forall_lookup in Hrows. rewrite (Hrows _ _ Hrow).
  unfold mapHeight in *. lia.
Qed.

Lemma oob_false_iff x y :
  oob x y = false <-> 0 <= x < mapWidth /\ 0 <= y < mapHeight.
Proof.
  unfold oob. rewrite !orb_false_iff, !Z.ltb_ge, !Z.leb_gt. tauto.
Qed.

Lemma walledb_spec m : map_wf m -> walledb m = true -> walled m.
Proof.
  intros Hwf Hb x y v Hv Hne.
  destruct (cell_at_range m x y v Hwf Hv) as [Hx Hy].
  unfold walledb in Hb. rewrite forallb_forall in Hb.
  assert (Hxin : In x (seqZ 0 mapWidth)).
  { apply list_elem_of_In, elem_of_seqZ. lia. }
  specialize (Hb x Hxin). rewrite forallb_forall in Hb.
  assert (Hyin : In y (seqZ 0 mapHeight)).
  { apply list_elem_of_In, elem_of_seqZ. lia. }
  specialize (Hb y Hyin). rewrite Hv in Hb.
  apply orb_true_iff in Hb as [Hb|Hb]; apply bool_decide_eq_true in Hb; [congruence|exact Hb].
Qed.

Lemma worldMap_wf : map_wf worldMap.
Proof. vm_compute. repeat constructor. Qed.

#[export] Hint Resolve worldMap_wf : rc.

(** A point whose cell is not a wall of a walled map lies in
    [1, 7) x [1, 7). *)
Lemma walled_coords m x y v :
  walled m -> cell_at m (f2i x) (f2i y) = Some v -> v <> 1%Z ->
  (1 <= x < 7)%Q /\ (1 <= y < 7)%Q.
Proof.
  intros Hw Hc Hne. destruct (Hw _ _ _ Hc Hne) as [[Hx1 Hx2] [Hy1 Hy2]].
  unfold mapWidth, mapHeight in *.
  pose proof (proj1 (f2i_ge_iff x 1 ltac:(lia)) Hx1).
  pose proof (proj1 (f2i_ge_iff y 1 ltac:(lia)) Hy1).
  pose proof (proj1 (f2i_le_iff x 6 ltac:(lia)) ltac:(lia)).
  pose proof (proj1 (f2i_le_iff y 6 ltac:(lia)) ltac:(lia)).
  qconst. change (inject_Z (6 + 1)) with 7%Q in *. lra.
Qed.

(** The program's map is closed: every cell that is not a wall lies in the
    interior, so the border of the arena is made of walls (checked by
    evaluation over the 64 cells). *)
Lemma worldMap_walled : walled worldMap.
Proof. apply walledb_spec; [exact worldMap_wf | vm_compute; reflexivity]. Qed.

#[export] Hint Resolve worldMap_walled : rc.
