(* ===== verification/Draw.v ===== *)
(** * What the windows receive

    Both renderers of src/src/main.cpp talk to SFML windows through
    [window.clear], [window.draw] of a rectangle, a circle, a line or a
    point, and [window.display].  This file gives those calls as the
    constructors of [DrawCmd], with the colours the code uses; a renderer
    is modelled as the list of commands it issues, in order.  A shape
    created without [setOutlineThickness] keeps SFML's default outline
    (white, thickness 0), which [defaultOutline] records. *)

From S2P Require Import Prelude.

Record Color := rgb { red : Z; green : Z; blue : Z }.

Definition black : Color := rgb 0 0 0.
Definition white : Color := rgb 255 255 255.
Definition red_ : Color := rgb 255 0 0.
Definition yellow : Color := rgb 255 255 0.
Definition blue_ : Color := rgb 0 0 255.

(** SFML's outline colour of a shape that never sets one. *)
Definition defaultOutline : Color := white.

Inductive DrawCmd :=
  | Clear (c : Color)
  | DrawRect (x y w h : float) (fill outline : Color) (thickness : float)
  | DrawCircle (x y radius : float) (fill : Color)
  | DrawLine (x0 y0 x1 y1 : float) (c : Color)
  | DrawPoint (x y : float) (c : Color)
  | Display.
