(* ===== verification/RayCaster.v ===== *)
(** * The ray caster: [castRays] (src/src/main.cpp, lines 112-147)

    For every screen column [x] the code computes a ray angle, takes its
    direction [(cos a, sin a)] and marches along it: the loop adds 0.1 to
    [distanceToWall], truncates the sampled point to a cell, stops with
    [maxDepth] when the cell is outside the grid and with the current
    distance when the cell holds 1.  The model keeps that structure:
    [probe] classifies the cell sampled at a distance, [march_body] is one
    iteration, [march_loop] the [while] loop (with fuel), [marchRay] one
    column, [castRay] and [castRays] the whole function.

    [first_stop] is the reference specification: the distance of the first
    of the samples [k/10] (k = 1..160) that is not an open cell, or
    [maxDepth] when that sample is outside the grid or when there is none.
    [march_loop_refines] shows the loop computes it with any fuel from
    [march_fuel] on; the
    other theorems are read off [first_stop] through the lemmas
    [first_stop_wall], [first_stop_outside], [first_stop_all_open] and
    [first_stop_cases], which determine it completely. *)

From S2P Require Import Prelude Trig GridMap.

(** What the march finds at the cell sampled at one distance. *)
Inductive Probe := Outside | HitWall | Open.

#[export] Instance Probe_eq_dec : EqDecision Probe.
Proof. solve_decision. Defined.

(** The two locals of the loop, [distanceToWall] and [hitWall]. *)
Record MarchState := mkMarch { distanceToWall : float; hitWall : bool }.

(** The increment of [distanceToWall += 0.1f]. *)
Definition rayStep : float := 1 # 10.

Section March.
Variable m : list (list Z).
Variables playerX playerY rayX rayY : float.

(** Lines 129-140: the sampled cell, the bounds test before the read,
    and the wall test [worldMap[testX][testY] == 1]. *)
Definition probe (d : float) : Probe :=
  let testX := f2i (playerX + rayX * d) in
  let testY := f2i (playerY + rayY * d) in
  if oob testX testY then Outside
  else if bool_decide (cell_at m testX testY = Some 1%Z) then HitWall
  else Open.

(** One iteration of the loop body (lines 128-140). *)
Definition march_body (s : MarchState) : MarchState :=
  let d := distanceToWall s + rayStep in
  match probe d with
  | Outside => mkMarch maxDepth true
  | HitWall => mkMarch d true
  | Open => mkMarch d false
  end.

(** The loop condition [!hitWall && distanceToWall < maxDepth]. *)
Definition march_guard (s : MarchState) : bool :=
  negb (hitWall s) && Qltb (distanceToWall s) maxDepth.

(** The [while] loop (line 126); [None] when the fuel runs out. *)
Fixpoint march_loop (fuel : nat) (s : MarchState) : option MarchState :=
  match fuel with
  | O => None
  | S n => if march_guard s then march_loop n (march_body s) else Some s
  end.

(** 160 iterations reach [maxDepth]; one more evaluates the guard. *)
Definition march_fuel : nat := 161.

(** Lines 123-143 for one column: start at distance 0, not hit, run the
    loop, return [distanceToWall]. *)
Definition marchRay : option float :=
  s ← march_loop march_fuel (mkMarch 0 false); Some (distanceToWall s).

(** ** The reference specification *)

(** The [k]-th sample is taken at distance [k/10]. *)
Definition sample (k : nat) : float := Z.of_nat k # 10.

(** Examine the samples [k+1 .. k+n]: the first that is not open decides;
    when all are open the distance has reached [maxDepth]. *)
Fixpoint first_stop (k n : nat) : float :=
  match n with
  | O => maxDepth
  | S n' =>
      match probe (sample (S k)) with
      | Outside => maxDepth
      | HitWall => sample (S k)
      | Open => first_stop (S k) n'
      end
  end.
End March.

(** Line 118: [(playerAngle - fov / 2.0f) + (x / (float)screenWidth) * fov]. *)
Definition rayAngle (playerAngle : float) (x : Z) : float :=
  (playerAngle - fov / 2) + (i2f x / i2f screenWidth) * fov.

Section Cast.
Context {T : Trig}.

(** Lines 118-143: one column. *)
Definition castRay (m : list (list Z)) (playerX playerY playerAngle : float)
    (x : Z) : option float :=
  let a := rayAngle playerAngle x in
  marchRay m playerX playerY (cos a) (sin a).

(** Lines 112-147: one sample per column [0 .. screenWidth - 1]. *)
Definition castRays (m : list (list Z)) (playerX playerY playerAngle : float)
    : option (list float) :=
  mapM (castRay m playerX playerY playerAngle) (seqZ 0 screenWidth).
End Cast.

(** ** Arithmetic of the samples *)

Lemma sample_succ k : sample k + rayStep == sample (S k).
Proof. unfold sample, rayStep, Qeq, Qplus. simpl. lia. Qed.

Lemma sample_lt_maxDepth k : sample k < maxDepth <-> (k < 160)%nat.
Proof. unfold sample, maxDepth, Qlt. simpl. lia. Qed.

Lemma sample_160 : sample 160 == maxDepth.
Proof. reflexivity. Qed.

Lemma sample_pos k : (0 < k)%nat -> 0 < sample k.
Proof. unfold sample, Qlt. simpl. lia. Qed.

Lemma sample_lt_iff i j : sample i < sample j <-> (i < j)%nat.
Proof. unfold sample, Qlt. simpl. lia. Qed.

Lemma sample_le_iff i j : sample i <= sample j <-> (i <= j)%nat.
Proof. unfold sample, Qle. simpl. lia. Qed.

(** A sample as a product, for [lra]. *)
Lemma sample_eq k : sample k == inject_Z (Z.of_nat k) * (1 # 10).
Proof. unfold sample, Qeq. simpl. lia. Qed.

Lemma sample_le_maxDepth k : (k <= 160)%nat -> sample k <= maxDepth.
Proof. unfold sample, maxDepth, Qle. simpl. lia. Qed.

#[export] Instance probe_proper m px py rx ry : Proper (Qeq ==> eq) (probe m px py rx ry).
Proof.
  intros d d' Hd. unfold probe. cbv zeta.
  rewrite (f2i_proper _ _ (Qplus_comp _ _ (Qeq_refl px) _ _ (Qmult_comp _ _ (Qeq_refl rx) _ _ Hd))).
  rewrite (f2i_proper _ _ (Qplus_comp _ _ (Qeq_refl py) _ _ (Qmult_comp _ _ (Qeq_refl ry) _ _ Hd))).
  reflexivity.
Qed.

(** The outcome of a sample depends only on the values of the position
    and the direction, not on their representation as fractions. *)
#[export] Instance probe_args_proper m :
  Proper (Qeq ==> Qeq ==> Qeq ==> Qeq ==> Qeq ==> eq) (probe m).
Proof.
  intros px px' Hx py py' Hy rx rx' Hrx ry ry' Hry d d' Hd. unfold probe. cbv zeta.
  rewrite (f2i_proper _ _ (Qplus_comp _ _ Hx _ _ (Qmult_comp _ _ Hrx _ _ Hd))).
  rewrite (f2i_proper _ _ (Qplus_comp _ _ Hy _ _ (Qmult_comp _ _ Hry _ _ Hd))).
  reflexivity.
Qed.

(** Hence so does the whole march: its distances are the same fractions. *)
#[export] Instance march_loop_proper m :
  Proper (Qeq ==> Qeq ==> Qeq ==> Qeq ==> eq ==> eq ==> eq) (march_loop m).
Proof.
  intros px px' Hx py py' Hy rx rx' Hrx ry ry' Hry fuel ? <- s ? <-.
  revert s. induction fuel as [|fuel IH]; intros s; [reflexivity|]. simpl.
  destruct (march_guard s); [|reflexivity]. unfold march_body. cbv zeta.
  rewrite (probe_args_proper m px px' Hx py py' Hy rx rx' Hrx ry ry' Hry _ _ (Qeq_refl _)).
  destruct (probe m px' py' rx' ry' _); apply IH.
Qed.

#[export] Instance marchRay_proper m :
  Proper (Qeq ==> Qeq ==> Qeq ==> Qeq ==> eq) (marchRay m).
Proof.
  intros px px' Hx py py' Hy rx rx' Hrx ry ry' Hry. unfold marchRay.
  now rewrite (march_loop_proper m px px' Hx py py' Hy rx rx' Hrx ry ry' Hry _ _ eq_refl _ _ eq_refl).
Qed.

(** ** The loop computes the reference *)

Lemma march_guard_sample s k :
  hitWall s = false -> distanceToWall s == sample k ->
  march_guard s = Qltb (sample k) maxDepth.
Proof.
  intros Hhit Hd. unfold march_guard. rewrite Hhit. simpl.
  apply Qltb_proper; [exact Hd | reflexivity].
Qed.

Lemma march_probe_sample m px py rx ry s k :
  distanceToWall s == sample k ->
  probe m px py rx ry (distanceToWall s + rayStep) = probe m px py rx ry (sample (S k)).
Proof. intros Hd. apply probe_proper. rewrite Hd. apply sample_succ. Qed.

Section Refinement.
Variable m : list (list Z).
Variables px py rx ry : float.

(** From a state that has not hit and has taken [k] steps, the loop with
    enough fuel returns the reference distance of the remaining samples. *)
Lemma march_loop_first_stop n : forall k fuel s,
  (k + n = 160)%nat -> (n < fuel)%nat ->
  hitWall s = false -> distanceToWall s == sample k ->
  exists s', march_loop m px py rx ry fuel s = Some s' /\
             distanceToWall s' == first_stop m px py rx ry k n.
Proof.
  induction n as [|n IH]; intros k fuel s Hkn Hfuel Hhit Hd;
    destruct fuel as [|fuel]; try lia; simpl.
  - replace k with 160%nat in Hd by lia.
    rewrite (march_guard_sample _ 160 Hhit Hd). simpl.
    eexists; split; [reflexivity|]. simpl. rewrite Hd. apply sample_160.
  - rewrite (march_guard_sample _ k Hhit Hd).
    rewrite (proj2 (Qltb_iff _ _)) by (apply sample_lt_maxDepth; lia).
    unfold march_body at 1. cbv zeta. rewrite (march_probe_sample _ _ _ _ _ _ k Hd).
    destruct (probe m px py rx ry (sample (S k))) eqn:Hp.
    + destruct fuel as [|fuel]; [lia|]. simpl. eexists; split; reflexivity.
    + destruct fuel as [|fuel]; [lia|]. simpl. eexists; split; [reflexivity|].
      simpl. rewrite Hd. apply sample_succ.
    + apply IH; simpl; try reflexivity; try lia.
      rewrite Hd. apply sample_succ.
Qed.
End Refinement.

(** The march of one ray terminates within [march_fuel] iterations and
    returns the reference distance. *)
Lemma marchRay_total m px py rx ry :
  exists d, marchRay m px py rx ry = Some d /\ d == first_stop m px py rx ry 0 160.
Proof.
  unfold marchRay.
  destruct (march_loop_first_stop m px py rx ry 160 0 march_fuel (mkMarch 0 false))
    as (s' & Hrun & Hd); try reflexivity; try (unfold march_fuel; lia).
  rewrite Hrun. simpl. eauto.
Qed.

(** C1: from its initial state (distance 0, not hit), the
    [while] loop of one ray terminates with any fuel of at least
    [march_fuel] = 161 iterations, in a state whose [distanceToWall] is
    the reference distance [first_stop] of the samples 1..160; the result
    does not depend on the fuel. *)
Theorem march_loop_refines m px py rx ry fuel :
  (march_fuel <= fuel)%nat ->
  exists s, march_loop m px py rx ry fuel (mkMarch 0 false) = Some s /\
            distanceToWall s == first_stop m px py rx ry 0 160.
Proof.
  intros Hfuel. apply (march_loop_first_stop m px py rx ry 160 0);
    try reflexivity; unfold march_fuel in Hfuel; lia.
Qed.

(** ** The reference, determined *)

(** The first of the samples [k+1 .. k+n] that is not open, if any. *)
Lemma first_non_open (P : nat -> Probe) k n :
  (exists j, (k < j <= k + n)%nat /\ P j <> Open /\
             forall i, (k < i < j)%nat -> P i = Open) \/
  (forall i, (k < i <= k + n)%nat -> P i = Open).
Proof.
  induction n as [|n [(j & Hj & Hne & Hopen)|Hall]].
  - right. intros. lia.
  - left. exists j. split; [lia|]. split; [assumption|exact Hopen].
  - destruct (decide (P (S (k + n)) = Open)) as [Ho|Hno].
    + right. intros i Hi. destruct (decide (i = S (k + n))) as [->|]; [exact Ho|].
      apply Hall. lia.
    + left. exists (S (k + n)). split; [lia|]. split; [exact Hno|].
      intros i Hi. apply Hall. lia.
Qed.

Section Reference.
Variable m : list (list Z).
Variables px py rx ry : float.
Local Abbreviation P := (probe m px py rx ry).
Local Abbreviation stop := (first_stop m px py rx ry).

(** The first sample that is not open decides the reference. *)
Lemma first_stop_first k n j :
  (k < j <= k + n)%nat -> P (sample j) <> Open ->
  (forall i, (k < i < j)%nat -> P (sample i) = Open) ->
  stop k n = if decide (P (sample j) = HitWall) then sample j else maxDepth.
Proof.
  revert k. induction n as [|n IH]; intros k Hj Hne Hopen; [lia|]. simpl.
  destruct (decide (j = S k)) as [->|Hjk].
  - destruct (P (sample (S k))); simpl; congruence.
  - rewrite (Hopen (S k)) by lia. apply IH; [lia|exact Hne|].
    intros i Hi. apply Hopen. lia.
Qed.

Lemma first_stop_wall k n j :
  (k < j <= k + n)%nat -> P (sample j) = HitWall ->
  (forall i, (k < i < j)%nat -> P (sample i) = Open) ->
  stop k n = sample j.
Proof.
  intros Hj Hw Hopen. rewrite (first_stop_first k n j Hj) by (congruence || assumption).
  now rewrite decide_True.
Qed.

Lemma first_stop_outside k n j :
  (k < j <= k + n)%nat -> P (sample j) = Outside ->
  (forall i, (k < i < j)%nat -> P (sample i) = Open) ->
  stop k n = maxDepth.
Proof.
  intros Hj Hw Hopen. rewrite (first_stop_first k n j Hj) by (congruence || assumption).
  rewrite decide_False; congruence.
Qed.

Lemma first_stop_all_open k n :
  (forall i, (k < i <= k + n)%nat -> P (sample i) = Open) -> stop k n = maxDepth.
Proof.
  revert k. induction n as [|n IH]; intros k Hall; simpl; [reflexivity|].
  rewrite Hall by lia. apply IH. intros i Hi. apply Hall. lia.
Qed.

(** Either [maxDepth], or the distance of a wall sample preceded only by
    open samples. *)
Lemma first_stop_cases k n :
  stop k n = maxDepth \/
  exists j, (k < j <= k + n)%nat /\ stop k n = sample j /\
            P (sample j) = HitWall /\
            forall i, (k < i < j)%nat -> P (sample i) = Open.
Proof.
  destruct (first_non_open (fun i => P (sample i)) k n)
    as [(j & Hj & Hne & Hopen)|Hall].
  - destruct (P (sample j)) eqn:Hp; [|right|congruence].
    + left. eapply first_stop_outside; eauto.
    + exists j. repeat split; try lia; [|assumption|exact Hopen].
      eapply first_stop_wall; eauto.
  - left. now apply first_stop_all_open.
Qed.
Lemma first_stop_range : rayStep <= stop 0 160 <= maxDepth.
Proof.
  destruct (first_stop_cases 0 160) as [->|(j & Hj & -> & _)].
  - unfold maxDepth, rayStep. lra.
  - split; [|apply sample_le_maxDepth; lia].
    change rayStep with (sample 1). apply sample_le_iff. lia.
Qed.
End Reference.

(** ** Properties of one ray *)

Section Ray.
Variable m : list (list Z).
Variables px py rx ry : float.

(** Unfolds [marchRay] to the reference for the proofs below. *)
Lemma marchRay_first_stop d :
  marchRay m px py rx ry = Some d -> d == first_stop m px py rx ry 0 160.
Proof.
  intros Hrun. destruct (marchRay_total m px py rx ry) as (d' & Hrun' & Hd).
  rewrite Hrun in Hrun'. now injection Hrun' as <-.
Qed.

(** C28: every ray returns a distance in [0.1, maxDepth]: at least
    one step is taken, and the distance never exceeds [maxDepth]. *)
Theorem marchRay_bounds :
  exists d, marchRay m px py rx ry = Some d /\ rayStep <= d <= maxDepth.
Proof.
  destruct (marchRay_total m px py rx ry) as (d & Hrun & Hd).
  exists d. split; [exact Hrun|]. rewrite Hd. apply first_stop_range.
Qed.

(** C3: a distance below [maxDepth] is the distance of a sample in a
    wall cell, and every earlier sample was in an open cell. *)
Theorem marchRay_hit_wall d :
  marchRay m px py rx ry = Some d -> d < maxDepth ->
  probe m px py rx ry d = HitWall /\
  forall i, (0 < i)%nat -> sample i < d -> probe m px py rx ry (sample i) = Open.
Proof.
  intros Hrun Hlt. apply marchRay_first_stop in Hrun as Hd.
  destruct (first_stop_cases m px py rx ry 0 160)
    as [Hmax|(j & Hj & Hs & Hw & Hopen)]; rewrite ?Hmax, ?Hs in Hd; [lra|].
  split.
  - now rewrite (probe_proper _ _ _ _ _ _ _ Hd).
  - intros i Hi Hlt'. apply Hopen. rewrite Hd, sample_lt_iff in Hlt'. lia.
Qed.

(** C4: when the first sample that is not open lies outside the
    grid, the ray returns exactly [maxDepth]. *)
Theorem marchRay_outside j :
  (0 < j <= 160)%nat -> probe m px py rx ry (sample j) = Outside ->
  (forall i, (0 < i < j)%nat -> probe m px py rx ry (sample i) = Open) ->
  exists d, marchRay m px py rx ry = Some d /\ d == maxDepth.
Proof.
  intros Hj Hout Hopen. destruct (marchRay_total m px py rx ry) as (d & Hrun & Hd).
  exists d. split; [exact Hrun|]. rewrite Hd.
  rewrite (first_stop_outside m px py rx ry 0 160 j); [reflexivity|lia|exact Hout|exact Hopen].
Qed.
End Ray.

(** ** Rays through open cells *)

(** The probe of an in-range cell is decided by the value it holds. *)
Lemma probe_cell m px py rx ry d v :
  (0 <= f2i (px + rx * d) < mapWidth)%Z -> (0 <= f2i (py + ry * d) < mapHeight)%Z ->
  cell_at m (f2i (px + rx * d)) (f2i (py + ry * d)) = Some v ->
  probe m px py rx ry d = if bool_decide (v = 1%Z) then HitWall else Open.
Proof.
  intros Hx Hy Hc. unfold probe. cbv zeta.
  rewrite (proj2 (oob_false_iff _ _)) by lia. rewrite Hc.
  repeat case_bool_decide; congruence.
Qed.

(** Along +X from [px] in [[0, c)], the first sample whose cell is [c]
    is [j = ceil((c - px) * 10)]: it lies within one step past the face
    [c - px], and every earlier sample stays in the cells [[(int)px, c)]. *)
Lemma axis_first_sample px (c : Z) :
  0 <= px -> px < inject_Z c -> (c < 8)%Z ->
  exists j, (0 < j <= 160)%nat /\
    inject_Z c - px <= sample j < inject_Z c - px + rayStep /\
    f2i (px + sample j) = c /\
    forall i, (i < j)%nat -> (f2i px <= f2i (px + sample i) <= c - 1)%Z.
Proof.
  intros Hpx HpxQ Hc. assert (Hc8 : inject_Z c + 1 <= 8) by (apply (inject_Z_lt_succ c 8); lia).
  assert (Hc0 : (0 < c)%Z) by (rewrite Zlt_Qlt; qconst; lra).
  pose proof (Qle_ceiling ((inject_Z c - px) * 10)) as HJ1.
  pose proof (Qceiling_lt ((inject_Z c - px) * 10)) as HJ2.
  set (J := Qceiling ((inject_Z c - px) * 10)) in *. rewrite inject_Z_minus1 in HJ2.
  assert (HJ : (0 < J <= 160)%Z).
  { split; [rewrite Zlt_Qlt|rewrite Zle_Qle]; qconst; change (inject_Z 160) with 160; lra. }
  assert (Hsj : sample (Z.to_nat J) == inject_Z J * (1 # 10)).
  { rewrite sample_eq. now rewrite Z2Nat.id by lia. }
  exists (Z.to_nat J). split; [lia|]. split; [rewrite Hsj; unfold rayStep; lra|]. split.
  - apply Z.le_antisymm.
    + apply f2i_le_iff; [lia|]. rewrite inject_Z_plus, Hsj. qconst. lra.
    + apply f2i_ge_iff; [lia|]. rewrite Hsj. lra.
  - intros i Hi. split.
    + apply f2i_mono. rewrite sample_eq. pose proof (Zle_0_nat i) as H0.
      rewrite Zle_Qle in H0. qconst. lra.
    + apply f2i_le_iff; [lia|]. replace (c - 1 + 1)%Z with c by lia.
      assert (Hi' : (Z.of_nat i < J)%Z) by lia.
      apply inject_Z_lt_succ in Hi'. rewrite sample_eq. lra.
Qed.

(** C5: a ray along +X from a point of an open row stops within one
    step past the near face of the first wall cell of the row: the
    returned distance [d] satisfies [c - px <= d < c - px + 0.1]. *)
Theorem marchRay_axis_x m px py (c : Z) :
  0 <= px -> (0 <= f2i py < mapHeight)%Z -> (f2i px < c < mapWidth)%Z ->
  (forall i, (f2i px <= i < c)%Z -> cell_at m i (f2i py) = Some 0%Z) ->
  cell_at m c (f2i py) = Some 1%Z ->
  exists d, marchRay m px py 1 0 = Some d /\
            inject_Z c - px <= d < inject_Z c - px + rayStep.
Proof.
  intros Hpx Hpy Hc Hopen Hwall. unfold mapWidth, mapHeight in *.
  pose proof (proj2 (f2i_nonneg_iff px) ltac:(lra)) as Hpx0.
  assert (HpxQ : px < inject_Z c).
  { pose proof (proj1 (f2i_le_iff px (c - 1) ltac:(lia)) ltac:(lia)) as H.
    now replace (c - 1 + 1)%Z with c in H by lia. }
  destruct (axis_first_sample px c Hpx HpxQ ltac:(lia)) as (j & Hj & Hdj & Hfj & Hbefore).
  assert (Hy : forall s, f2i (py + 0 * s) = f2i py) by (intros; apply f2i_proper; ring).
  assert (Hx : forall s, f2i (px + 1 * s) = f2i (px + s)) by (intros; apply f2i_proper; ring).
  destruct (marchRay_total m px py 1 0) as (d & Hrun & Hd).
  rewrite (first_stop_wall m px py 1 0 0 160 j) in Hd; [exists d; split; [exact Hrun | rewrite Hd; exact Hdj] | lia | |].
  - rewrite (probe_cell m px py 1 0 (sample j) 1); rewrite ?Hx, ?Hy, ?Hfj; auto;
      unfold mapWidth, mapHeight; lia.
  - intros i Hi. specialize (Hbefore i ltac:(lia)).
    rewrite (probe_cell m px py 1 0 (sample i) 0); rewrite ?Hx, ?Hy; auto;
      unfold mapWidth, mapHeight; try lia.
    apply Hopen. lia.
Qed.

(** An open sample of a well-formed walled map lies in the interior. *)
Lemma open_coords m px py rx ry d :
  map_wf m -> walled m -> probe m px py rx ry d = Open ->
  1 <= px + rx * d < 7 /\ 1 <= py + ry * d < 7.
Proof.
  intros Hwf Hw Hp. unfold probe in Hp. cbv zeta in Hp.
  destruct (oob _ _) eqn:Hoob; [discriminate|]. apply oob_false_iff in Hoob.
  destruct (cell_at_defined m _ _ Hwf (proj1 Hoob) (proj2 Hoob)) as [v Hv].
  rewrite Hv in Hp. case_bool_decide as Hv1; [discriminate|].
  apply (walled_coords m _ _ v Hw Hv). congruence.
Qed.

(** One step of at most 0.1 per axis from the interior stays in the grid. *)
Lemma step_not_outside m px py rx ry d :
  1 <= px + rx * d < 7 -> 1 <= py + ry * d < 7 ->
  -1 <= rx <= 1 -> -1 <= ry <= 1 ->
  probe m px py rx ry (d + rayStep) <> Outside.
Proof.
  intros Hx Hy Hrx Hry. unfold probe, rayStep. cbv zeta.
  rewrite (proj2 (oob_false_iff _ _)); [repeat case_match; discriminate|].
  unfold mapWidth, mapHeight. rewrite !f2i_range by lia.
  change (inject_Z 8) with 8. lra.
Qed.

Section Walled.
Variable m : list (list Z).
Hypothesis Hwf : map_wf m.
Hypothesis Hw : walled m.

(** On the reference: from a non-wall cell, along a direction whose
    components are at most 1 in magnitude and one at least 1/2, the first
    sample that is not open comes within 12 and is a wall. *)
Lemma first_stop_walled px py rx ry v :
  cell_at m (f2i px) (f2i py) = Some v -> v <> 1%Z ->
  -1 <= rx <= 1 -> -1 <= ry <= 1 ->
  (1 # 2 <= rx \/ rx <= -(1 # 2)) \/ (1 # 2 <= ry \/ ry <= -(1 # 2)) ->
  first_stop m px py rx ry 0 160 <= 12 /\
  probe m px py rx ry (first_stop m px py rx ry 0 160) = HitWall.
Proof.
  intros Hc Hne Hrx Hry Hdom.
  destruct (walled_coords m px py v Hw Hc Hne) as [Hpx Hpy].
  destruct (first_non_open (fun i => probe m px py rx ry (sample i)) 0 120)
    as [(j & Hj & Hno & Hopen)|Hall].
  - assert (Hprev : 1 <= px + rx * sample (j - 1) < 7 /\
                    1 <= py + ry * sample (j - 1) < 7).
    { destruct (decide (j = 1%nat)) as [->|Hj1].
      - assert (E : sample (1 - 1) == 0) by reflexivity. rewrite E. lra.
      - apply (open_coords m); auto. apply Hopen. lia. }
    assert (Hsj : sample j == sample (j - 1) + rayStep).
    { rewrite sample_succ. now replace (S (j - 1)) with j by lia. }
    assert (Hwall : probe m px py rx ry (sample j) = HitWall).
    { pose proof (step_not_outside m px py rx ry (sample (j - 1))) as Hs.
      rewrite <- Hsj in Hs. destruct (probe _ _ _ _ _ (sample j)); intuition. }
    rewrite (first_stop_wall m px py rx ry 0 160 j);
      [|lia|exact Hwall|intros; apply Hopen; lia].
    split; [|exact Hwall].
    apply Qle_trans with (sample 120); [apply sample_le_iff; lia|].
    unfold sample, Qle. simpl. lia.
  - exfalso.
    destruct (open_coords m px py rx ry (sample 120)) as [Hx Hy]; auto.
    { apply Hall. lia. }
    assert (E : sample 120 == 12) by reflexivity. rewrite E in Hx, Hy.
    destruct Hdom as [[H|H]|[H|H]]; lra.
Qed.

(** C29: on a well-formed map whose border is walls, a ray cast from
    a non-wall cell along a direction whose components are at most 1 in
    magnitude, one of them at least 1/2, stops in a wall cell within
    distance 12: it never reaches [maxDepth] nor leaves the grid. *)
Theorem marchRay_walled px py rx ry v :
  cell_at m (f2i px) (f2i py) = Some v -> v <> 1%Z ->
  -1 <= rx <= 1 -> -1 <= ry <= 1 ->
  (1 # 2 <= rx \/ rx <= -(1 # 2)) \/ (1 # 2 <= ry \/ ry <= -(1 # 2)) ->
  exists d, marchRay m px py rx ry = Some d /\ d <= 12 /\
            probe m px py rx ry d = HitWall.
Proof.
  intros Hc Hne Hrx Hry Hdom.
  destruct (marchRay_total m px py rx ry) as (d & Hrun & Hd).
  destruct (first_stop_walled px py rx ry v) as [Hle Hwall]; auto.
  exists d. split; [exact Hrun|]. split; [now rewrite Hd|].
  now rewrite (probe_proper _ _ _ _ _ _ _ Hd).
Qed.
End Walled.

(** ** All columns *)

Section Columns.
Context {T : Trig}.
Variable m : list (list Z).
Variables px py pa : float.

Lemma castRays_total : exists ds, castRays m px py pa = Some ds.
Proof.
  apply mapM_is_Some_2. apply Forall_forall. intros x _. simpl.
  unfold castRay. destruct (marchRay_total m px py (cos (rayAngle pa x))
    (sin (rayAngle pa x))) as (d & -> & _). eauto.
Qed.

Lemma castRays_length ds : castRays m px py pa = Some ds -> length ds = Z.to_nat screenWidth.
Proof. intros Hds. rewrite <- (Forall2_length (mapM_Some_1 _ _ _ Hds)). apply length_seqZ. Qed.

(** C2: [castRays] returns exactly [screenWidth] samples, the
    sample of column [x] being the reference distance along the ray of
    angle [rayAngle pa x]. *)
Theorem castRays_spec :
  exists ds, castRays m px py pa = Some ds /\
    length ds = Z.to_nat screenWidth /\
    forall x d, ds !! x = Some d ->
      let a := rayAngle pa (Z.of_nat x) in
      d == first_stop m px py (cos a) (sin a) 0 160.
Proof.
  destruct castRays_total as [ds Hds]. exists ds. split; [exact Hds|].
  pose proof (mapM_Some_1 _ _ _ Hds) as HF. split; [exact (castRays_length ds Hds)|].
  intros x d Hx. destruct (Forall2_lookup_r _ _ _ _ _ HF Hx) as (z & Hz & Hrun).
  apply lookup_seqZ in Hz as [-> _]. apply marchRay_first_stop, Hrun.
Qed.
End Columns.

(** [castRays] depends only on the values of the player's coordinates
    and angle, for any [cos]/[sin] that are functions of the value. *)
#[export] Instance castRays_proper {T : Trig} {TL : TrigLaws T} m :
  Proper (Qeq ==> Qeq ==> Qeq ==> eq) (castRays m).
Proof.
  intros px px' Hx py py' Hy pa pa' Ha. unfold castRays. apply mapM_ext. intros x.
  unfold castRay. apply marchRay_proper; try assumption; [apply cos_proper|apply sin_proper];
    unfold rayAngle; rewrite Ha; reflexivity.
Qed.

(** C6: with any [cos]/[sin] satisfying the Pythagorean law, every
    column cast from a non-wall cell of a well-formed walled map (such as
    [worldMap]) hits a wall at a distance in (0, 12]. *)
Theorem castRays_walled {T : Trig} {TL : TrigLaws T} m px py pa v :
  map_wf m -> walled m -> cell_at m (f2i px) (f2i py) = Some v -> v <> 1%Z ->
  exists ds, castRays m px py pa = Some ds /\
    length ds = Z.to_nat screenWidth /\ Forall (fun d => rayStep <= d <= 12) ds.
Proof.
  intros Hwf Hw Hc Hne.
  destruct (castRays_total m px py pa) as [ds Hds]. exists ds. split; [exact Hds|].
  pose proof (mapM_Some_1 _ _ _ Hds) as HF. split.
  - rewrite <- (Forall2_length HF). apply length_seqZ.
  - eapply Forall2_Forall_r; [exact HF|]. apply Forall_forall. intros x _ d Hrun.
    unfold castRay in Hrun. set (a := rayAngle pa x) in Hrun.
    apply marchRay_first_stop in Hrun as Hd. rewrite Hd.
    destruct (first_stop_walled m Hwf Hw px py (cos a) (sin a) v) as [Hle _];
      auto using trig_dominant with rc.
    split; [apply first_stop_range | exact Hle].
Qed.

(** ** Witnesses *)

Lemma march_loop_refines_witness :
  exists s, march_loop worldMap (5 # 2) (5 # 2) 1 0 200 (mkMarch 0 false) = Some s /\
            distanceToWall s == first_stop worldMap (5 # 2) (5 # 2) 1 0 0 160.
Proof. apply march_loop_refines. unfold march_fuel. lia. Defined.

Lemma marchRay_hit_wall_witness :
  exists d, marchRay worldMap (5 # 2) (5 # 2) 1 0 = Some d /\ d == 5 # 2 /\
            probe worldMap (5 # 2) (5 # 2) 1 0 d = HitWall.
Proof.
  set (d := match marchRay worldMap (5 # 2) (5 # 2) 1 0 with Some d => d | None => 0 end).
  assert (Hrun : marchRay worldMap (5 # 2) (5 # 2) 1 0 = Some d) by (vm_compute; reflexivity).
  assert (Hlt : d < maxDepth) by (vm_compute; reflexivity).
  exists d. split; [exact Hrun|]. split; [vm_compute; reflexivity|].
  exact (proj1 (marchRay_hit_wall worldMap _ _ _ _ d Hrun Hlt)).
Defined.

Lemma marchRay_outside_witness :
  exists d, marchRay emptyArena (9 # 2) (9 # 2) 1 0 = Some d /\ d == maxDepth.
Proof.
  apply (marchRay_outside emptyArena (9 # 2) (9 # 2) 1 0 35).
  - lia.
  - vm_compute. reflexivity.
  - intros i Hi.
    apply (forallb_seq_spec (fun i => probe emptyArena (9 # 2) (9 # 2) 1 0 (sample i) = Open) 1 34);
      [vm_compute; reflexivity | lia].
Defined.

Lemma marchRay_axis_x_witness :
  exists d, marchRay worldMap (5 # 2) (5 # 2) 1 0 = Some d /\
            inject_Z 5 - (5 # 2) <= d < inject_Z 5 - (5 # 2) + rayStep.
Proof.
  assert (E : f2i (5 # 2) = 2%Z) by reflexivity.
  apply (marchRay_axis_x worldMap (5 # 2) (5 # 2) 5).
  - vm_compute. discriminate.
  - rewrite E. unfold mapHeight. lia.
  - rewrite E. unfold mapWidth. lia.
  - rewrite E. intros i Hi.
    assert (Hc : (i = 2 \/ i = 3 \/ i = 4)%Z) by lia.
    destruct Hc as [Hc | [Hc | Hc]]; subst i; reflexivity.
  - reflexivity.
Defined.

Lemma marchRay_walled_witness :
  exists d, marchRay worldMap (5 # 2) (5 # 2) 1 0 = Some d /\ d <= 12 /\
            probe worldMap (5 # 2) (5 # 2) 1 0 d = HitWall.
Proof.
  apply (marchRay_walled worldMap worldMap_wf worldMap_walled (5 # 2) (5 # 2) 1 0 0).
  - reflexivity.
  - discriminate.
  - split; vm_compute; discriminate.
  - split; vm_compute; discriminate.
  - left. left. vm_compute. discriminate.
Defined.

Lemma castRays_walled_witness :
  exists ds, @castRays ratTrig worldMap (5 # 2) (5 # 2) 0 = Some ds /\
    length ds = Z.to_nat screenWidth /\ Forall (fun d => rayStep <= d <= 12) ds.
Proof.
  apply (@castRays_walled ratTrig ratTrig_laws worldMap (5 # 2) (5 # 2) 0 0).
  - vm_compute. repeat constructor.
  - apply walledb_spec; [vm_compute; repeat constructor | vm_compute; reflexivity].
  - reflexivity.
  - discriminate.
Defined.
