(* ===== verification/Motion.v ===== *)
(** * The motion handler: [handleInput] (src/src/main.cpp, lines 149-210)

    The globals [playerX], [playerY], [playerAngle] (lines 21-22) are the
    record [Player]; the two [static] locals of [handleInput] (lines
    188-189) are the record [MouseState]; the pressed keys and the pointer
    position read from SFML are inputs.  [candidate] is the position the
    keys propose (lines 151-175, in the code's order W, S, D, A); [collide]
    is the per-axis collision check (lines 178-185): X first against the
    old Y, then Y against the X just committed; [mouse_update] is the mouse
    look (lines 192-207).  The reads of the map return [option]: [None]
    would be an out-of-range read.  [window.setMouseCursorVisible] is an
    SFML call with no effect on this state and is not modelled.

    [handleInput_preserves] is the invariant: from a position whose cell is
    empty, on a well-formed map with wall borders, [handleInput] reads the
    map only in range and ends in a position whose cell is empty. *)

From S2P Require Import Prelude Trig GridMap.

Record Player := mkPlayer { playerX : float; playerY : float; playerAngle : float }.

Record Keys := mkKeys { keyW : bool; keyS : bool; keyD : bool; keyA : bool }.

(** [static bool firstMouseMovement] and [static sf::Vector2i
    previousMousePosition]. *)
Record MouseState := mkMouse {
  firstMouseMovement : bool;
  previousMousePosition : Z * Z
}.

(** The static locals before the first call. *)
Definition initialMouse : MouseState := mkMouse true (0, 0)%Z.

(** [playerAngle += mouseDeltaX * 0.002f]. *)
Definition mouseSensitivity : float := 2 # 1000.

Section Input.
Context {T : Trig}.

(** Lines 151-175. *)
Definition candidate (k : Keys) (p : Player) : float * float :=
  let a := playerAngle p in
  let '(nx, ny) := (playerX p, playerY p) in
  let '(nx, ny) := if keyW k then (nx + cos a * moveSpeed, ny + sin a * moveSpeed)
                   else (nx, ny) in
  let '(nx, ny) := if keyS k then (nx - cos a * moveSpeed, ny - sin a * moveSpeed)
                   else (nx, ny) in
  let '(nx, ny) := if keyD k then (nx - sin a * moveSpeed, ny + cos a * moveSpeed)
                   else (nx, ny) in
  let '(nx, ny) := if keyA k then (nx + sin a * moveSpeed, ny - cos a * moveSpeed)
                   else (nx, ny) in
  (nx, ny).

(** Lines 178-185: [worldMap[(int)newPlayerX][(int)playerY] == 0], then
    [worldMap[(int)playerX][(int)newPlayerY] == 0] with the [playerX]
    the first test may just have changed. *)
Definition collide (m : list (list Z)) (p : Player) (nx ny : float)
    : option (float * float) :=
  c1 ← cell_at m (f2i nx) (f2i (playerY p));
  let x' := if bool_decide (c1 = 0%Z) then nx else playerX p in
  c2 ← cell_at m (f2i x') (f2i ny);
  let y' := if bool_decide (c2 = 0%Z) then ny else playerY p in
  Some (x', y').

(** Lines 192-207: the first call takes the current position as the
    previous one. *)
Definition mouse_update (ms : MouseState) (cur : Z * Z) (angle : float)
    : float * MouseState :=
  let prev := if firstMouseMovement ms then cur else previousMousePosition ms in
  let mouseDeltaX := (fst cur - fst prev)%Z in
  (angle + i2f mouseDeltaX * mouseSensitivity, mkMouse false cur).

(** Lines 149-210. *)
Definition handleInput (m : list (list Z)) (k : Keys) (cur : Z * Z)
    (p : Player) (ms : MouseState) : option (Player * MouseState) :=
  let '(nx, ny) := candidate k p in
  '(x', y') ← collide m p nx ny;
  let '(a', ms') := mouse_update ms cur (playerAngle p) in
  Some (mkPlayer x' y' a', ms').
End Input.

(** The player stands in an empty cell. *)
Definition player_ok (m : list (list Z)) (p : Player) : Prop :=
  cell_at m (f2i (playerX p)) (f2i (playerY p)) = Some 0%Z.

(** ** Lemmas *)

Section Laws.
Context {T : Trig} {TL : TrigLaws T}.

(** The keys move the player by at most 0.1 on each axis. *)
Lemma candidate_near k p :
  -(1 # 10) <= fst (candidate k p) - playerX p <= 1 # 10 /\
  -(1 # 10) <= snd (candidate k p) - playerY p <= 1 # 10.
Proof.
  pose proof (cos_bound (playerAngle p)). pose proof (sin_bound (playerAngle p)).
  unfold candidate, moveSpeed.
  destruct (keyW k), (keyS k), (keyD k), (keyA k); simpl; lra.
Qed.
End Laws.

(** [handleInput] unfolded into its three parts. *)
Lemma handleInput_Some {T : Trig} m k cur p ms p' ms' :
  handleInput m k cur p ms = Some (p', ms') <->
  exists x' y', collide m p (fst (candidate k p)) (snd (candidate k p)) = Some (x', y') /\
    p' = mkPlayer x' y' (fst (mouse_update ms cur (playerAngle p))) /\
    ms' = snd (mouse_update ms cur (playerAngle p)).
Proof.
  unfold handleInput. destruct (candidate k p) as [nx ny]. simpl.
  destruct (collide m p nx ny) as [[x' y']|]; simpl.
  - split.
    + intros H. injection H as <- <-. eauto.
    + intros (x'' & y'' & H & -> & ->). injection H as <- <-. reflexivity.
  - split; [discriminate|]. intros (? & ? & ? & _). discriminate.
Qed.

(** A cell index computed from a coordinate within 0.1 of the interior
    [1, 7) is in range. *)
Lemma near_index (a b : float) :
  1 <= a < 7 -> -(1 # 10) <= b - a <= 1 # 10 ->
  (0 <= f2i b < 8)%Z.
Proof.
  intros Ha Hb. apply f2i_range; [lia|].
  change (inject_Z 8) with 8. lra.
Qed.

Lemma bool_decide_Some_eq (a b : Z) :
  bool_decide (Some a = Some b) = bool_decide (a = b).
Proof. apply bool_decide_ext. split; [congruence|intros ->; reflexivity]. Qed.

(** The collision check, read off: both reads succeed, X moves exactly when
    its target cell is empty, Y is tested against the X just committed. *)
Lemma collide_spec m p nx ny x' y' :
  collide m p nx ny = Some (x', y') <->
  exists c1 c2,
    cell_at m (f2i nx) (f2i (playerY p)) = Some c1 /\
    x' = (if bool_decide (c1 = 0%Z) then nx else playerX p) /\
    cell_at m (f2i x') (f2i ny) = Some c2 /\
    y' = (if bool_decide (c2 = 0%Z) then ny else playerY p).
Proof.
  unfold collide. split.
  - destruct (cell_at m (f2i nx) (f2i (playerY p))) as [c1|] eqn:E1; [simpl|discriminate].
    destruct (cell_at m (f2i (if bool_decide (c1 = 0%Z) then nx else playerX p)) (f2i ny))
      as [c2|] eqn:E2; [simpl|discriminate].
    intros H. injection H as <- <-. eauto 10.
  - intros (c1 & c2 & E1 & -> & E2 & ->). rewrite E1. simpl. rewrite E2. reflexivity.
Qed.

(** From an empty cell of a walled map, a move of at most 0.1 per axis
    reads the map in range and lands in an empty cell. *)
Lemma collide_preserves m p nx ny :
  map_wf m -> walled m -> player_ok m p ->
  -(1 # 10) <= nx - playerX p <= 1 # 10 -> -(1 # 10) <= ny - playerY p <= 1 # 10 ->
  exists x' y', collide m p nx ny = Some (x', y') /\
                cell_at m (f2i x') (f2i y') = Some 0%Z.
Proof.
  intros Hwf Hw Hp Hnx Hny. unfold player_ok in Hp.
  destruct (walled_coords m _ _ 0 Hw Hp ltac:(lia)) as [Hx Hy].
  pose proof (cell_at_range m _ _ _ Hwf Hp) as [_ HyR].
  assert (Hnx' : (0 <= f2i nx < mapWidth)%Z) by (apply (near_index (playerX p)); assumption).
  destruct (cell_at_defined m (f2i nx) (f2i (playerY p)) Hwf Hnx' HyR) as [c1 E1].
  set (x' := if bool_decide (c1 = 0%Z) then nx else playerX p).
  assert (Hx' : cell_at m (f2i x') (f2i (playerY p)) = Some 0%Z /\ 1 <= x' < 7).
  { unfold x'. case_bool_decide as Hc1; [subst c1|split; assumption].
    split; [exact E1|]. apply (walled_coords m _ _ 0 Hw E1). lia. }
  destruct Hx' as [Ex' Hx'].
  assert (Hny' : (0 <= f2i ny < mapHeight)%Z) by (apply (near_index (playerY p)); assumption).
  destruct (cell_at_defined m (f2i x') (f2i ny) Hwf) as [c2 E2];
    [apply (cell_at_range m _ _ _ Hwf Ex') | exact Hny' |].
  exists x', (if bool_decide (c2 = 0%Z) then ny else playerY p). split.
  - unfold collide. rewrite E1. simpl. fold x'. rewrite E2. reflexivity.
  - case_bool_decide; [subst c2; exact E2 | exact Ex'].
Qed.

(** ** Properties of [handleInput] *)

(** C7: on a well-formed map with wall borders, from a
    position in an empty cell, [handleInput] performs only in-range reads
    (it returns a result) and the new position is again in an empty cell,
    whatever the keys, the pointer and the mouse state. *)
Theorem handleInput_preserves {T : Trig} {TL : TrigLaws T} m k cur p ms :
  map_wf m -> walled m -> player_ok m p ->
  exists p' ms', handleInput m k cur p ms = Some (p', ms') /\ player_ok m p'.
Proof.
  intros Hwf Hw Hp. destruct (candidate_near k p) as [Hnx Hny].
  destruct (collide_preserves m p _ _ Hwf Hw Hp Hnx Hny) as (x' & y' & Hc & Hok).
  eexists (mkPlayer x' y' _), _. split; [|exact Hok].
  apply handleInput_Some. eauto.
Qed.

Section Axes.
Context {T : Trig}.
Variable m : list (list Z).
Variables (k : Keys) (cur : Z * Z) (p : Player) (ms : MouseState).
Let nx := fst (candidate k p).
Let ny := snd (candidate k p).

(** C8: when the cell at the proposed X and the current Y is not
    empty, X does not change, and Y is still tested on its own (at the
    unchanged X). *)
Theorem handleInput_x_blocked p' ms' :
  handleInput m k cur p ms = Some (p', ms') ->
  cell_at m (f2i nx) (f2i (playerY p)) <> Some 0%Z ->
  playerX p' = playerX p /\
  playerY p' = if bool_decide (cell_at m (f2i (playerX p)) (f2i ny) = Some 0%Z)
               then ny else playerY p.
Proof.
  intros H Hblk. unfold nx, ny in *. apply handleInput_Some in H as (x' & y' & Hc & -> & _).
  apply collide_spec in Hc as (c1 & c2 & E1 & -> & E2 & ->). simpl.
  rewrite bool_decide_false by (intros ->; congruence).
  rewrite bool_decide_false in E2 by (intros ->; congruence).
  rewrite E2, bool_decide_Some_eq. split; reflexivity.
Qed.

(** C9: when X moves, Y is tested at the new X (the code's order
    of the two tests), not at the old one. *)
Theorem handleInput_y_after_x p' ms' :
  handleInput m k cur p ms = Some (p', ms') ->
  cell_at m (f2i nx) (f2i (playerY p)) = Some 0%Z ->
  playerX p' = nx /\
  playerY p' = if bool_decide (cell_at m (f2i nx) (f2i ny) = Some 0%Z)
               then ny else playerY p.
Proof.
  intros H Hfree. unfold nx, ny in *. unfold handleInput in H.
  destruct (candidate k p) as [cx cy]. simpl in *.
  unfold collide in H. rewrite Hfree in H. simpl in H.
  destruct (cell_at m (f2i cx) (f2i cy)) as [c2|] eqn:E2; simpl in H; [|discriminate].
  injection H as <- _. simpl. rewrite bool_decide_Some_eq. split; reflexivity.
Qed.

(** C10: the first call never rotates, wherever the pointer is,
    and records the pointer for the next call. *)
Theorem handleInput_first_mouse p' ms' :
  handleInput m k cur p ms = Some (p', ms') -> firstMouseMovement ms = true ->
  playerAngle p' == playerAngle p /\ ms' = mkMouse false cur.
Proof.
  intros H Hfirst. apply handleInput_Some in H as (x' & y' & _ & -> & ->).
  unfold mouse_update. rewrite Hfirst. simpl. split; [|reflexivity].
  rewrite Z.sub_diag. unfold i2f. simpl. ring.
Qed.
End Axes.

(** ** Witnesses *)

Lemma handleInput_preserves_witness :
  exists p' ms', @handleInput ratTrig worldMap (mkKeys true false false false) (0, 0)%Z
                   (mkPlayer (5 # 2) (5 # 2) 0) initialMouse = Some (p', ms') /\
                 player_ok worldMap p'.
Proof.
  apply (@handleInput_preserves ratTrig ratTrig_laws).
  - vm_compute. repeat constructor.
  - apply walledb_spec; [vm_compute; repeat constructor | vm_compute; reflexivity].
  - reflexivity.
Defined.

(** Backing into the wall of row 0: X is blocked, Y is left alone. *)
Lemma handleInput_x_blocked_witness :
  exists p' ms', @handleInput ratTrig worldMap (mkKeys false true false false) (0, 0)%Z
                   (mkPlayer (51 # 50) (5 # 2) 0) initialMouse = Some (p', ms') /\
                 playerX p' = 51 # 50.
Proof.
  set (r := @handleInput ratTrig worldMap (mkKeys false true false false) (0, 0)%Z
              (mkPlayer (51 # 50) (5 # 2) 0) initialMouse).
  set (p' := match r with Some (p', _) => p' | None => mkPlayer 0 0 0 end).
  set (ms' := match r with Some (_, ms') => ms' | None => initialMouse end).
  assert (Hrun : r = Some (p', ms')) by (vm_compute; reflexivity).
  exists p', ms'. split; [exact Hrun|].
  apply (handleInput_x_blocked worldMap _ _ _ _ p' ms' Hrun).
  vm_compute. discriminate.
Defined.

(** The corner of the interior wall at cell (3,4): moving diagonally from
    cell (2,3) with [cos = 3/5], [sin = 4/5], X enters the open cell (3,3)
    and Y is then refused because cell (3,4) is a wall. *)
Lemma handleInput_y_after_x_witness :
  exists p' ms', @handleInput ratTrig worldMap (mkKeys true false false false) (0, 0)%Z
                   (mkPlayer (298 # 100) (397 # 100) 1) initialMouse = Some (p', ms') /\
                 playerY p' = 397 # 100 /\ player_ok worldMap p'.
Proof.
  set (r := @handleInput ratTrig worldMap (mkKeys true false false false) (0, 0)%Z
              (mkPlayer (298 # 100) (397 # 100) 1) initialMouse).
  set (p' := match r with Some (p', _) => p' | None => mkPlayer 0 0 0 end).
  set (ms' := match r with Some (_, ms') => ms' | None => initialMouse end).
  assert (Hrun : r = Some (p', ms')) by (vm_compute; reflexivity).
  exists p', ms'. split; [exact Hrun|]. split; [|vm_compute; reflexivity].
  destruct (handleInput_y_after_x worldMap _ _ _ _ p' ms' Hrun) as [_ Hy];
    [vm_compute; reflexivity|].
  rewrite Hy. vm_compute. reflexivity.
Defined.

Lemma handleInput_first_mouse_witness :
  exists p' ms', @handleInput ratTrig worldMap (mkKeys false false false false) (300, 7)%Z
                   (mkPlayer (5 # 2) (5 # 2) 0) initialMouse = Some (p', ms') /\
                 playerAngle p' == 0 /\ ms' = mkMouse false (300, 7)%Z.
Proof.
  set (r := @handleInput ratTrig worldMap (mkKeys false false false false) (300, 7)%Z
              (mkPlayer (5 # 2) (5 # 2) 0) initialMouse).
  set (p' := match r with Some (p', _) => p' | None => mkPlayer 0 0 0 end).
  set (ms' := match r with Some (_, ms') => ms' | None => initialMouse end).
  assert (Hrun : r = Some (p', ms')) by (vm_compute; reflexivity).
  exists p', ms'. split; [exact Hrun|].
  apply (handleInput_first_mouse worldMap _ _ _ _ p' ms' Hrun). reflexivity.
Defined.
