(* ===== verification/BirdsEye.v ===== *)
(** * The map view: [renderBirdsEyeView] (src/src/main.cpp, lines 32-70)

    The view clears the window to white, draws the 64 cells row by row (y
    outer, x inner) as 50-pixel squares, black for a wall and white
    otherwise, with a blue outline, draws the player as a red circle of
    radius 5 whose bounding box starts at the player's pixel position, then
    one yellow line per distance from the centre of that circle to the end
    point of the ray, and displays.  The ray angle is computed from
    [distances.size()], not from [screenWidth]; the two agree for the list
    [castRays] produces.  Reads of the map return [option] as in
    [GridMap]. *)

From S2P Require Import Prelude Trig GridMap Draw RayCaster.

(** Line 34. *)
Definition cellSize : Z := 50.

(** Lines 41-46: the square of cell [(x, y)]. *)
Definition cellCmd (m : list (list Z)) (x y : Z) : option DrawCmd :=
  v ← cell_at m x y;
  Some (DrawRect (i2f (x * cellSize)) (i2f (y * cellSize)) (i2f cellSize) (i2f cellSize)
          (if bool_decide (v = 1%Z) then black else white) blue_ 1).

(** Line 59: the angle of ray [i] of [n]. *)
Definition mapRayAngle (playerAngle : float) (n i : nat) : float :=
  (playerAngle - fov / 2) + (inject_Z (Z.of_nat i) / inject_Z (Z.of_nat n)) * fov.

Section Render.
Context {T : Trig}.
Variables playerX playerY playerAngle : float.

(** Lines 59-66: the line of ray [i] of [n], of length [d]. *)
Definition rayLine (n i : nat) (d : float) : DrawCmd :=
  let a := mapRayAngle playerAngle n i in
  let rayEndX := playerX + cos a * d in
  let rayEndY := playerY + sin a * d in
  DrawLine (playerX * i2f cellSize + 5) (playerY * i2f cellSize + 5)
           (rayEndX * i2f cellSize) (rayEndY * i2f cellSize) yellow.

(** Lines 32-70. *)
Definition renderBirdsEyeView (m : list (list Z)) (distances : list float)
    : option (list DrawCmd) :=
  cells ← mapM (fun '(y, x) => cellCmd m x y)
               (list_prod (seqZ 0 mapHeight) (seqZ 0 mapWidth));
  let playerCmd := DrawCircle (playerX * i2f cellSize) (playerY * i2f cellSize) 5 red_ in
  let rays := imap (rayLine (length distances)) distances in
  Some (Clear white :: cells ++ playerCmd :: rays ++ [Display]).
End Render.

(** ** The cells *)

Lemma cells_total m :
  map_wf m ->
  exists cells, mapM (fun '(y, x) => cellCmd m x y)
                     (list_prod (seqZ 0 mapHeight) (seqZ 0 mapWidth)) = Some cells.
Proof.
  intros Hwf. apply mapM_is_Some_2. apply Forall_forall. intros [y x] Hin.
  apply in_prod_iff in Hin as [Hy Hx]. rewrite <- list_elem_of_In, elem_of_seqZ in Hx, Hy.
  destruct (cell_at_defined m x y Hwf) as [v Hv]; [lia|lia|].
  unfold compose, cellCmd. rewrite Hv. simpl. eauto.
Qed.

Lemma cells_length m cells :
  mapM (fun '(y, x) => cellCmd m x y)
       (list_prod (seqZ 0 mapHeight) (seqZ 0 mapWidth)) = Some cells ->
  length cells = 64%nat.
Proof.
  intros Hc. rewrite <- (Forall2_length (mapM_Some_1 _ _ _ Hc)).
  rewrite length_prod, !length_seqZ. reflexivity.
Qed.

(** The commands of the view, split at the cells. *)
Lemma renderBirdsEyeView_Some {T : Trig} m px py pa distances cmds :
  renderBirdsEyeView px py pa m distances = Some cmds ->
  exists cells,
    mapM (fun '(y, x) => cellCmd m x y)
         (list_prod (seqZ 0 mapHeight) (seqZ 0 mapWidth)) = Some cells /\
    cmds = Clear white :: cells ++
           DrawCircle (px * i2f cellSize) (py * i2f cellSize) 5 red_ ::
           imap (rayLine px py pa (length distances)) distances ++ [Display].
Proof.
  unfold renderBirdsEyeView. destruct (mapM _ _) as [cells|]; simpl; [|discriminate].
  intros H. injection H as <-. eauto.
Qed.


(** On a well-formed map the view reads the map only in range. *)
Lemma renderBirdsEyeView_defined {T : Trig} m px py pa distances :
  map_wf m -> exists cmds, renderBirdsEyeView px py pa m distances = Some cmds.
Proof. intros Hwf. destruct (cells_total m Hwf) as [cells Hc]. unfold renderBirdsEyeView. rewrite Hc. eauto. Qed.

(** ** Properties of the view *)

(** C27: on a well-formed map the view reads the map only in range
    and issues 67 commands plus one line per distance. *)
Theorem birdsEye_total {T : Trig} m px py pa distances :
  map_wf m ->
  exists cmds, renderBirdsEyeView px py pa m distances = Some cmds /\
               length cmds = (67 + length distances)%nat.
Proof.
  intros Hwf. destruct (cells_total m Hwf) as [cells Hc].
  unfold renderBirdsEyeView. rewrite Hc. simpl. eexists. split; [reflexivity|].
  simpl. rewrite length_app. simpl. rewrite length_app, length_imap, (cells_length m cells Hc).
  simpl. lia.
Qed.

(** C26: on a well-formed map the view draws, at the pixel position
    of cell (x, y), a square of colour [c] exactly when the cell exists and
    [c] is black for a wall (value 1) and white otherwise. *)
Theorem birdsEye_cell_colour {T : Trig} m px py pa distances cmds x y c :
  map_wf m -> renderBirdsEyeView px py pa m distances = Some cmds ->
  In (DrawRect (i2f (x * cellSize)) (i2f (y * cellSize)) (i2f cellSize) (i2f cellSize)
               c blue_ 1) cmds <->
  exists v, cell_at m x y = Some v /\ c = (if bool_decide (v = 1%Z) then black else white).
Proof.
  intros Hwf H. apply renderBirdsEyeView_Some in H as (cells & Hc & ->).
  pose proof (mapM_Some_1 _ _ _ Hc) as HF.
  simpl. rewrite in_app_iff. simpl. rewrite in_app_iff. simpl.
  assert (Hrays : forall r, In r (imap (rayLine px py pa (length distances)) distances) ->
                  exists x0 y0 x1 y1 col, r = DrawLine x0 y0 x1 y1 col).
  { intros r Hr. rewrite <- list_elem_of_In, elem_of_lookup_imap in Hr.
    destruct Hr as (i & d & -> & _). unfold rayLine. eauto 6. }
  split.
  - intros [Hcl|[Hin|[Hci|[Hr|[Hd|[]]]]]]; try discriminate;
      [|apply Hrays in Hr as (? & ? & ? & ? & ? & ?); discriminate].
    rewrite <- list_elem_of_In, list_elem_of_lookup in Hin. destruct Hin as [i Hi].
    destruct (Forall2_lookup_r _ _ _ _ _ HF Hi) as ([y' x'] & _ & Hcell).
    unfold cellCmd in Hcell. destruct (cell_at m x' y') as [v|] eqn:Hv; [|discriminate].
    simpl in Hcell. injection Hcell as Hx Hy Hcol.
    unfold cellSize in Hx, Hy. assert (x' = x) by lia. assert (y' = y) by lia.
    subst x' y'. eauto.
  - intros (v & Hv & ->). right. left.
    destruct (cell_at_range m x y v Hwf Hv) as [Hx Hy].
    assert (Hin : (y, x) ∈ list_prod (seqZ 0 mapHeight) (seqZ 0 mapWidth)).
    { rewrite list_elem_of_In, in_prod_iff, <- !list_elem_of_In, !elem_of_seqZ. lia. }
    apply list_elem_of_lookup in Hin as [i Hi].
    destruct (Forall2_lookup_l _ _ _ _ _ HF Hi) as (c' & Hc' & Hcell).
    unfold cellCmd in Hcell. rewrite Hv in Hcell. simpl in Hcell. injection Hcell as <-.
    rewrite <- list_elem_of_In. apply list_elem_of_lookup. eauto.
Qed.

(** C25: for the 800 distances of [castRays], the line of ray [i]
    starts 5 pixels right of and below the player's pixel position (the
    centre of the circle) and ends at the pixel position of the point the
    caster reached along the ray of column [i], with no such offset. *)
Theorem birdsEye_ray_end {T : Trig} m px py pa distances cmds i d :
  renderBirdsEyeView px py pa m distances = Some cmds ->
  length distances = Z.to_nat screenWidth -> distances !! i = Some d ->
  let a := rayAngle pa (Z.of_nat i) in
  cmds !! (66 + i)%nat =
    Some (DrawLine (px * i2f cellSize + 5) (py * i2f cellSize + 5)
                   ((px + cos a * d) * i2f cellSize) ((py + sin a * d) * i2f cellSize)
                   yellow).
Proof.
  intros H Hlen Hd a. apply renderBirdsEyeView_Some in H as (cells & Hc & ->).
  pose proof (cells_length m cells Hc) as Hcl.
  replace (66 + i)%nat with (S (length cells + S i)) by lia. simpl.
  rewrite lookup_app_r by lia. replace (length cells + S i - length cells)%nat with (S i) by lia.
  simpl. rewrite lookup_app_l by (rewrite length_imap; apply lookup_lt_Some in Hd; lia).
  rewrite list_lookup_imap, Hd. simpl. unfold rayLine, mapRayAngle, a, rayAngle.
  rewrite Hlen. reflexivity.
Qed.

(** ** Witnesses *)

Lemma birdsEye_total_witness :
  exists cmds, @renderBirdsEyeView ratTrig 2 2 0 worldMap [1; 2] = Some cmds /\
               length cmds = (67 + 2)%nat.
Proof. apply (@birdsEye_total ratTrig worldMap 2 2 0 [1; 2]). vm_compute. repeat constructor. Defined.

(** Cell (3, 4) is [worldMap[3][4]], a wall: the map view draws the array
    transposed with respect to its initialiser. *)
Lemma birdsEye_cell_colour_witness :
  let cmds := default [] (@renderBirdsEyeView ratTrig 2 2 0 worldMap [1]) in
  In (DrawRect (i2f (3 * cellSize)) (i2f (4 * cellSize)) (i2f cellSize) (i2f cellSize)
               black blue_ 1) cmds.
Proof.
  intros cmds. apply (proj2 (@birdsEye_cell_colour ratTrig worldMap 2 2 0 [1] cmds 3 4 black
                               worldMap_wf ltac:(vm_compute; reflexivity))).
  exists 1%Z. split; reflexivity.
Defined.

Lemma birdsEye_ray_end_witness :
  let ds := replicate 800 1 in
  let cmds := default [] (@renderBirdsEyeView ratTrig 2 2 0 worldMap ds) in
  cmds !! 66%nat =
    Some (DrawLine (2 * i2f cellSize + 5) (2 * i2f cellSize + 5)
                   ((2 + half_cos (rayAngle 0 0) * 1) * i2f cellSize)
                   ((2 + half_sin (rayAngle 0 0) * 1) * i2f cellSize) yellow).
Proof.
  intros ds cmds.
  apply (@birdsEye_ray_end ratTrig worldMap 2 2 0 ds cmds 0 1);
    vm_compute; reflexivity.
Defined.
