(* ===== verification/Projector.v ===== *)
(** * The first-person view: [renderPlayerView] (src/src/main.cpp, lines 72-110)

    Per column [x] the code reads [distances[x]], draws a wall slice of
    height [(int)(screenHeight / distance)] centred on the horizon and
    shaded [255 - min(255, (int)(distance * 20))], then draws one floor
    pixel for every row from the bottom of the slice to the bottom of the
    screen, inverse-projecting the row to a floor distance, the floor
    distance to a world point along the column's ray, and the world point
    to a texel.  The model returns the draw commands the window receives,
    in order; [None] marks a read of [distances] or of the image out of
    range.  The SFML image is the record [Texture]: its size and its
    pixels; [getPixel] reads it and returns [None] outside it.  Division in
    [Q] by zero gives 0 where the C++ float division gives an infinity;
    [floor_rows_safe] shows that the floor loop never divides by zero for
    the distances the caster returns, so the difference is not reached.

    The texel index [(int)(floorX * texWidth) % texWidth] mixes an [int]
    and an [unsigned int]: the [int] is converted to unsigned (taken modulo
    2^32) before the remainder, as [texCoord] writes out. *)

From S2P Require Import Prelude Trig GridMap RayCaster Draw.
From Stdlib Require Import Qfield.

(** The floor image: its size [getSize()] (unsigned) and its pixels. *)
Record Texture := mkTexture {
  texWidth : Z;
  texHeight : Z;
  pixel : Z -> Z -> Color
}.

(** [sf::Image::getPixel]: a read outside the image is undefined, [None]. *)
Definition getPixel (tex : Texture) (x y : Z) : option Color :=
  if bool_decide (0 <= x < texWidth tex /\ 0 <= y < texHeight tex)%Z
  then Some (pixel tex x y) else None.

(** An image of the size a successful [loadFromFile] gives: not empty. *)
Definition tex_ok (tex : Texture) : Prop := (0 < texWidth tex /\ 0 < texHeight tex)%Z.

(** Line 83. *)
Definition wallHeight (distance : float) : Z := f2i (i2f screenHeight / distance).

(** Line 87: [screenHeight / 2 - wallHeight / 2] in [int] arithmetic. *)
Definition sliceTop (wh : Z) : Z := Z.quot screenHeight 2 - Z.quot wh 2.

(** Line 88. *)
Definition shade (distance : float) : Z := 255 - Z.min 255 (f2i (distance * 20)).

(** Line 94: the first floor row. *)
Definition floorStart (wh : Z) : Z := Z.quot screenHeight 2 + Z.quot wh 2.

(** Line 96. *)
Definition floorDistance (y : Z) : float :=
  i2f screenHeight / (2 * i2f y - i2f screenHeight).

(** Lines 97-98: the angle of column [x]. *)
Definition floorAngle (playerAngle : float) (x : Z) : float :=
  playerAngle + (i2f x / i2f screenWidth - (1 # 2)) * fov.

(** Lines 100-101: [(int)(f * size) % size] with [size] unsigned. *)
Definition texCoord (f : float) (size : Z) : Z :=
  ((f2i (f * i2f size) mod 2 ^ 32) mod size)%Z.

Section Render.
Context {T : Trig}.
Variable tex : Texture.
Variables playerX playerY playerAngle : float.

(** Lines 96-101: the texel sampled for row [y] of column [x]. *)
Definition floorTexel (x y : Z) : Z * Z :=
  let fd := floorDistance y in
  let a := floorAngle playerAngle x in
  let floorX := playerX + cos a * fd in
  let floorY := playerY + sin a * fd in
  (texCoord floorX (texWidth tex), texCoord floorY (texHeight tex)).

(** Lines 103-105. *)
Definition floorPixel (x y : Z) : option DrawCmd :=
  let '(texX, texY) := floorTexel x y in
  floorColor ← getPixel tex texX texY;
  Some (DrawPoint (i2f x) (i2f y) floorColor).

(** Lines 82-106: the commands of column [x]. *)
Definition column_cmds (x : Z) (distance : float) : option (list DrawCmd) :=
  let wh := wallHeight distance in
  let s := shade distance in
  floor ← mapM (floorPixel x) (seqZ (floorStart wh) (screenHeight - floorStart wh));
  Some (DrawRect (i2f x) (i2f (sliceTop wh)) 1 (i2f wh) (rgb s s s) defaultOutline 0 :: floor).

(** Lines 72-110. *)
Definition renderPlayerView (distances : list float) : option (list DrawCmd) :=
  cols ← mapM (fun x => d ← distances !! Z.to_nat x; column_cmds x d) (seqZ 0 screenWidth);
  Some (Clear black :: concat cols ++ [Display]).
End Render.

(** ** Helper lemmas *)

Lemma div_antitone (a d1 d2 : float) :
  0 <= a -> 0 < d1 -> d1 <= d2 -> a / d2 <= a / d1.
Proof.
  intros Ha Hd1 Hd12. apply Qle_shift_div_r; [lra|].
  assert (Hq : 0 <= a / d1) by (apply Qle_shift_div_l; lra).
  assert (Hqd : a / d1 * d1 == a) by (field; lra).
  nra.
Qed.

Lemma floorStart_ge wh : (25 <= wh)%Z -> (212 <= floorStart wh)%Z.
Proof.
  intros H. unfold floorStart, screenHeight. change (Z.quot 400 2) with 200%Z.
  pose proof (Z.quot_le_mono 25 wh 2 ltac:(lia) H). change (Z.quot 25 2) with 12%Z in *. lia.
Qed.

(** Every texel of a non-empty image is read in range, whatever the
    world point, so a column is always drawn. *)
Lemma column_cmds_total {T : Trig} tex px py pa x d :
  tex_ok tex -> exists cs, column_cmds tex px py pa x d = Some cs.
Proof.
  intros [Hw Hh]. unfold column_cmds.
  destruct (mapM_is_Some_2 (floorPixel tex px py pa x)
              (seqZ (floorStart (wallHeight d)) (screenHeight - floorStart (wallHeight d))))
    as [fl ->]; [|simpl; eauto].
  apply Forall_forall. intros y _. unfold compose, floorPixel, floorTexel, getPixel, texCoord.
  rewrite bool_decide_eq_true_2 by (split; apply Z.mod_pos_bound; assumption).
  simpl. eauto.
Qed.

(** Given one distance per column and a non-empty image, the view reads
    the distances and the image only in range. *)
Lemma renderPlayerView_total {T : Trig} tex px py pa distances :
  tex_ok tex -> length distances = Z.to_nat screenWidth ->
  exists cmds, renderPlayerView tex px py pa distances = Some cmds.
Proof.
  intros Htex Hlen. unfold renderPlayerView.
  destruct (mapM_is_Some_2 (fun x => d ← distances !! Z.to_nat x; column_cmds tex px py pa x d)
              (seqZ 0 screenWidth)) as [cols ->]; [|simpl; eauto].
  apply Forall_forall. intros x Hx. rewrite <- list_elem_of_In, elem_of_seqZ in Hx.
  destruct (lookup_lt_is_Some_2 distances (Z.to_nat x)) as [d Hd]; [lia|].
  unfold compose. rewrite Hd. simpl. destruct (column_cmds_total tex px py pa x d Htex) as [cs ->].
  eauto.
Qed.

(** ** Wall slices *)

(** C18: for a fixed screen height, a farther wall is never
    drawn taller. *)
Theorem wallHeight_antitone d1 d2 :
  0 < d1 -> d1 <= d2 -> (wallHeight d2 <= wallHeight d1)%Z.
Proof.
  intros Hd1 Hd12. unfold wallHeight. apply f2i_mono.
  apply div_antitone; [unfold i2f, screenHeight; change (inject_Z 400) with 400 | |]; lra.
Qed.

(** [screenHeight / distance] for the distances the caster produces. *)
Lemma screen_div_bounds d :
  1 # 10 <= d <= maxDepth -> 25 <= i2f screenHeight / d < 4001.
Proof.
  intros [Hlo Hhi]. unfold i2f, screenHeight, maxDepth in *.
  change (inject_Z 400) with 400. split.
  - apply Qle_shift_div_l; lra.
  - apply Qlt_shift_div_r; lra.
Qed.

Lemma wallHeight_ge d : 1 # 10 <= d <= maxDepth -> (25 <= wallHeight d)%Z.
Proof.
  intros Hd. apply f2i_ge_iff; [lia|]. apply (screen_div_bounds d Hd).
Qed.

(** C17: every distance the ray caster produces (at least one
    step, at most [maxDepth]) gives a wall height between 25 and 4000, so
    the division never overflows although the code does not clamp the
    distance. *)
Theorem wallHeight_range d :
  1 # 10 <= d <= maxDepth -> (25 <= wallHeight d <= 4000)%Z.
Proof.
  intros Hd. split; [now apply wallHeight_ge|].
  apply f2i_le_iff; [lia|]. apply (screen_div_bounds d Hd).
Qed.

(** C19: for non-negative distances the shade is a valid colour
    channel, darker for farther walls. *)
Theorem shade_valid d1 d2 :
  0 <= d1 -> d1 <= d2 -> (0 <= shade d2 <= shade d1 /\ shade d1 <= 255)%Z.
Proof.
  intros Hd1 Hd12.
  assert (H1 : (0 <= f2i (d1 * 20))%Z) by (apply f2i_nonneg_iff; lra).
  assert (H12 : (f2i (d1 * 20) <= f2i (d2 * 20))%Z) by (apply f2i_mono; lra).
  unfold shade. lia.
Qed.

(** C24: the slice of height [wh] covers rows [sliceTop wh] to
    [sliceTop wh + wh - 1] and the floor starts at [floorStart wh]: right
    below the slice when [wh] is even, and on the slice's last row when
    [wh] is odd, so a floor pixel overdraws the bottom row of every wall
    slice of odd height (both use [int] division by 2). *)
Theorem floor_slice_seam wh :
  (0 <= wh)%Z ->
  floorStart wh = (sliceTop wh + wh - Z.rem wh 2)%Z /\ (0 <= Z.rem wh 2 <= 1)%Z.
Proof.
  intros H. pose proof (Z.quot_rem wh 2 ltac:(lia)) as E.
  pose proof (Z.rem_bound_pos wh 2 H ltac:(lia)).
  unfold floorStart, sliceTop. split; lia.
Qed.

(** ** The floor *)

(** Rows from 212 down lie strictly below the horizon, at a floor
    distance in (0, 50/3]. *)
Lemma floorDistance_bounds y :
  (212 <= y)%Z -> 0 < 2 * i2f y - i2f screenHeight /\ 0 < floorDistance y <= 50 # 3.
Proof.
  intros Hy. assert (HyQ : 212 <= i2f y) by (unfold i2f; change 212 with (inject_Z 212); rewrite <- Zle_Qle; lia).
  unfold floorDistance, i2f, screenHeight in *. change (inject_Z 400) with 400.
  assert (Hden : 0 < 2 * inject_Z y - 400) by lra.
  split; [exact Hden|]. split.
  - apply Qlt_shift_div_l; lra.
  - apply Qle_shift_div_r; lra.
Qed.

(** A world coordinate [p + c * fd] of the floor, with the player inside
    [1, 7), a direction component in [-1, 1] and a floor distance in
    (0, 50/3], scaled by an image size of at most 2^26, converts to an
    [int] without overflow. *)
Lemma coord_int_range (p c fd : float) (w : Z) :
  1 <= p < 7 -> -1 <= c <= 1 -> 0 < fd <= 50 # 3 -> (0 < w <= 2 ^ 26)%Z ->
  (- 2 ^ 31 < f2i ((p + c * fd) * i2f w) < 2 ^ 31)%Z.
Proof.
  intros Hp Hc Hfd Hw. change (2 ^ 26)%Z with 67108864%Z in Hw. change (2 ^ 31)%Z with 2147483648%Z.
  assert (HW : 0 < i2f w <= 67108864) by (unfold i2f; rewrite Zlt_Qlt, Zle_Qle in *; split; [apply Hw|apply Hw]).
  assert (Hs : -(47 # 3) <= p + c * fd <= 71 # 3) by (split; nra).
  assert (Hq : -(2147483647) <= (p + c * fd) * i2f w <= 2147483647) by (split; nra).
  destruct Hq as [Hlo Hhi]. apply f2i_mono in Hlo, Hhi.
  change (-(2147483647)) with (inject_Z (-2147483647)) in Hlo.
  change 2147483647 with (inject_Z 2147483647) in Hhi. rewrite f2i_inject in Hlo, Hhi. lia.
Qed.

(** C16: for every distance the caster produces, every floor row of
    the column lies strictly below the horizon, so the inverse projection
    never divides by zero (the code has no guard), and the floor distance
    is in (0, 50/3]. *)
Theorem floor_rows_safe d y :
  1 # 10 <= d <= maxDepth -> (floorStart (wallHeight d) <= y)%Z ->
  0 < 2 * i2f y - i2f screenHeight /\ 0 < floorDistance y <= 50 # 3.
Proof.
  intros Hd Hy. apply floorDistance_bounds.
  pose proof (floorStart_ge _ (wallHeight_ge d Hd)). lia.
Qed.

(** C23: in every frame the game reaches (player inside [1, 7) on
    both axes, distances from the caster), the conversions
    [(int)(floorX * texWidth)] and [(int)(floorY * texHeight)] of lines
    100-101 stay within the range of a 32-bit [int] for every image of
    side at most 2^26, so the unsigned wrap of [texCoord] is exactly the
    C++ conversion. *)
Theorem floorTexel_int_range {T : Trig} {TL : TrigLaws T} px py pa x y d w h :
  1 <= px < 7 -> 1 <= py < 7 -> 1 # 10 <= d <= maxDepth ->
  (floorStart (wallHeight d) <= y)%Z -> (0 < w <= 2 ^ 26)%Z -> (0 < h <= 2 ^ 26)%Z ->
  let a := floorAngle pa x in
  (- 2 ^ 31 < f2i ((px + cos a * floorDistance y) * i2f w) < 2 ^ 31)%Z /\
  (- 2 ^ 31 < f2i ((py + sin a * floorDistance y) * i2f h) < 2 ^ 31)%Z.
Proof.
  intros Hpx Hpy Hd Hy Hw Hh a.
  assert (Hfd : 0 < floorDistance y <= 50 # 3).
  { apply floorDistance_bounds. pose proof (floorStart_ge _ (wallHeight_ge d Hd)). lia. }
  split; apply coord_int_range; auto with rc.
Qed.

(** ** Texture coordinates *)

(** The point [-3/(2 size)] truncates to the cell just below 0. *)
Lemma f2i_below_zero size :
  (0 < size)%Z -> f2i (-(3 # 2) / i2f size * i2f size) = (-1)%Z.
Proof.
  intros Hs. assert (HsQ : 0 < i2f size) by (unfold i2f; rewrite Zlt_Qlt in Hs; exact Hs).
  rewrite (f2i_proper _ (-(3 # 2))) by (field; lra). reflexivity.
Qed.

(** C20: the texel index is the [int] wrapped to [unsigned] and then
    reduced.  For a power-of-two size [2^k] ([k <= 32]) this is the floor
    modulo of the truncated coordinate, so the tiling has no other defect
    than the truncation seam; for every size the cell just below 0
    (coordinate [-3/(2 size)], truncated to -1) gets texel
    [(2^32 - 1) mod size], which is [size - 1] only when [size] divides
    2^32: a width-3 image shows texel 0 there instead of 2. *)
Theorem texCoord_wrap f k size :
  (0 <= k <= 32)%Z -> (0 < size)%Z ->
  texCoord f (2 ^ k) = (f2i (f * i2f (2 ^ k)) mod 2 ^ k)%Z /\
  texCoord (-(3 # 2) / i2f size) size = ((2 ^ 32 - 1) mod size)%Z.
Proof.
  intros Hk Hs. unfold texCoord. split.
  - apply Z.mod_mod_divide. exists (2 ^ (32 - k))%Z.
    rewrite <- Z.pow_add_r by lia. f_equal. lia.
  - rewrite f2i_below_zero by exact Hs. reflexivity.
Qed.

(** [(int)] of a non-negative float shifted by a non-negative integer. *)
Lemma f2i_add_Z q z : 0 <= q -> (0 <= z)%Z -> f2i (q + inject_Z z) = (f2i q + z)%Z.
Proof.
  intros Hq Hz. assert (Hz' : 0 <= inject_Z z) by (rewrite Zle_Qle in Hz; exact Hz).
  rewrite !f2i_floor by lra. destruct q as [a b]. unfold Qfloor, Qplus, inject_Z. simpl.
  rewrite Z.mul_1_r, Pos.mul_1_r. rewrite Z.div_add by lia. reflexivity.
Qed.

(** C21: on non-negative world coordinates (and below the
    2^32 wrap) the texel index repeats with period one grid unit: the
    texture tiles once per cell. *)
Theorem texCoord_periodic f size :
  0 <= f -> (0 < size)%Z -> (f2i (f * i2f size) + size < 2 ^ 32)%Z ->
  texCoord (f + 1) size = texCoord f size.
Proof.
  intros Hf Hs Hb. unfold texCoord, i2f in *.
  assert (HsQ : 0 < inject_Z size) by (rewrite Zlt_Qlt in Hs; exact Hs).
  assert (Hn : (0 <= f2i (f * inject_Z size))%Z) by (apply f2i_nonneg_iff; nra).
  assert (E : (f + 1) * inject_Z size == f * inject_Z size + inject_Z size) by ring.
  rewrite E, f2i_add_Z by (try nra; lia).
  rewrite !(Z.mod_small _ (2 ^ 32)) by lia.
  rewrite <- Z.add_mod_idemp_r, Z.mod_same, Z.add_0_r by lia. reflexivity.
Qed.

(** C22: the wrap is not periodic across 0.  The conversion
    [(int)] truncates toward zero, so every texture of size at least 2 maps
    the point [-1/(2 size)] to texel 0 while the point one grid unit
    farther maps to texel [size - 1]. *)
Theorem texCoord_seam size :
  (2 <= size < 2 ^ 31)%Z ->
  let f := -(1 # 2) / i2f size in
  texCoord f size = 0%Z /\ texCoord (f + 1) size = (size - 1)%Z.
Proof.
  intros Hs f. unfold texCoord, f, i2f.
  change (2 ^ 31)%Z with 2147483648%Z in Hs. change (2 ^ 32)%Z with 4294967296%Z.
  assert (Hpos : 2 <= inject_Z size) by (change 2 with (inject_Z 2); rewrite <- Zle_Qle; lia).
  assert (E1 : -(1 # 2) / inject_Z size * inject_Z size == -(1 # 2)) by (field; lra).
  assert (E2 : (-(1 # 2) / inject_Z size + 1) * inject_Z size == inject_Z size - (1 # 2))
    by (field; lra).
  rewrite E1, E2. split; [reflexivity|].
  replace (f2i (inject_Z size - (1 # 2))) with (size - 1)%Z.
  - rewrite (Z.mod_small (size - 1) 4294967296) by lia.
    apply Z.mod_small. lia.
  - apply Z.le_antisymm.
    + apply f2i_ge_iff; [lia|]. rewrite inject_Z_minus1. lra.
    + apply f2i_le_iff; [lia|]. replace (size - 1 + 1)%Z with size by lia. lra.
Qed.

(** C30: the floor of column [x] is sampled along the ray the caster
    marched for the same column. *)
Theorem floorAngle_rayAngle pa x : floorAngle pa x == rayAngle pa x.
Proof. unfold floorAngle, rayAngle, i2f, screenWidth. field. Qed.

(** ** Witnesses *)

Lemma wallHeight_antitone_witness : (wallHeight 2 <= wallHeight 1)%Z.
Proof. apply wallHeight_antitone; vm_compute; [reflexivity | discriminate]. Defined.

Lemma wallHeight_range_witness : (25 <= wallHeight (1 # 10) <= 4000)%Z.
Proof. apply wallHeight_range. split; vm_compute; discriminate. Defined.

Lemma shade_valid_witness : (0 <= shade 16 <= shade 1 /\ shade 1 <= 255)%Z.
Proof. apply shade_valid; vm_compute; discriminate. Defined.

Lemma floor_rows_safe_witness :
  0 < 2 * i2f 212 - i2f screenHeight /\ 0 < floorDistance 212 <= 50 # 3.
Proof.
  apply (floor_rows_safe maxDepth 212).
  - split; vm_compute; discriminate.
  - vm_compute. discriminate.
Defined.

Lemma texCoord_wrap_witness :
  texCoord (-(5 # 4)) (2 ^ 6) = (f2i (-(5 # 4) * i2f (2 ^ 6)) mod 2 ^ 6)%Z /\
  texCoord (-(3 # 2) / i2f 3) 3 = 0%Z.
Proof.
  destruct (texCoord_wrap (-(5 # 4)) 6 3 ltac:(lia) ltac:(lia)) as [E1 E2].
  split; [exact E1 | rewrite E2; reflexivity].
Defined.

Lemma texCoord_periodic_witness : texCoord ((1 # 4) + 1) 64 = texCoord (1 # 4) 64.
Proof.
  apply texCoord_periodic; [vm_compute; discriminate | reflexivity | vm_compute; reflexivity].
Defined.

Lemma texCoord_seam_witness :
  texCoord (-(1 # 2) / i2f 3) 3 = 0%Z /\ texCoord (-(1 # 2) / i2f 3 + 1) 3 = 2%Z.
Proof. apply (texCoord_seam 3). vm_compute. split; [discriminate | reflexivity]. Defined.

Lemma floorTexel_int_range_witness :
  let a := floorAngle 0 0 in
  (- 2 ^ 31 < f2i ((2 + half_cos a * floorDistance 212) * i2f 64) < 2 ^ 31)%Z /\
  (- 2 ^ 31 < f2i ((2 + half_sin a * floorDistance 212) * i2f 64) < 2 ^ 31)%Z.
Proof.
  apply (@floorTexel_int_range ratTrig ratTrig_laws 2 2 0 0 212 maxDepth 64 64);
    vm_compute; try split; try reflexivity; discriminate.
Defined.

Lemma floor_slice_seam_witness :
  floorStart 25 = (sliceTop 25 + 25 - 1)%Z /\ floorStart 26 = (sliceTop 26 + 26)%Z.
Proof.
  split.
  - destruct (floor_slice_seam 25 ltac:(lia)) as [E _]. exact E.
  - destruct (floor_slice_seam 26 ltac:(lia)) as [E _]. rewrite E. reflexivity.
Defined.
