(* ===== verification/Frame.v ===== *)
(** * The frame loop and start-up: [main] (src/src/main.cpp, lines 212-246)

    [main] creates the map window (400 x 400) and the player window
    (800 x 400), loads the floor texture, returns -1 if that fails, and
    otherwise loops while both windows are open.  One iteration drains the
    events of each window (closing it on [Closed]), calls [handleInput],
    [castRays] at the updated position, and the two renderers.

    The windows' state is their open flag; the player globals and the
    static mouse state of [handleInput] are the fields of [World].  What
    SFML delivers in one iteration (the events of each window, the keys,
    the pointer) is a [FrameInput]; a run of the program is [loop] over a
    finite list of them, so [loop] is structural on the list and the
    program's own termination is the status it reaches ([Exited 0] when a
    window is closed, [Running] if the inputs end first).  A frame records
    the commands issued to each window; SFML ignores commands sent to a
    closed window.  The texture is [Some] image when [loadFromFile]
    succeeds; such an image is not empty ([tex_ok]), which the safety
    theorems assume.  [main] is stated for any [cos]/[sin]; its theorems
    for those satisfying [TrigLaws]. *)

From S2P Require Import Prelude Trig GridMap Draw RayCaster Motion BirdsEye Projector.
From Stdlib Require String.
Import String.StringSyntax.

(** The event types the loop distinguishes (lines 229 and 234: [sf::Event::Closed]). *)
Inductive EventType := Closed | OtherEvent.

#[export] Instance EventType_eq_dec : EqDecision EventType.
Proof. solve_decision. Defined.

(** Lines 227-236: [while (w.pollEvent(event)) if (Closed) w.close();].
    [pollEvent] returns false on a closed window, so the events after a
    [Closed] are not delivered. *)
Fixpoint pollEvents (open : bool) (evs : list EventType) : bool :=
  match evs with
  | [] => open
  | e :: es =>
      if open then pollEvents (if bool_decide (e = Closed) then false else true) es
      else false
  end.

Record World := mkWorld {
  birdOpen : bool;
  playerOpen : bool;
  player : Player;
  mouse : MouseState
}.

Record FrameInput := mkInput {
  birdEvents : list EventType;
  playerEvents : list EventType;
  keys : Keys;
  pointer : Z * Z
}.

Record FrameDraws := mkFrame { birdCmds : list DrawCmd; playerCmds : list DrawCmd }.

Inductive Status := Exited (code : Z) | Running.

(** Lines 214-215: the two windows, in order of creation. *)
Record WindowSpec := mkWindowSpec { winWidth : Z; winHeight : Z; title : String.string }.

Local Open Scope string_scope.
Definition windows : list WindowSpec :=
  [mkWindowSpec 400 400 "Bird's Eye View"; mkWindowSpec screenWidth screenHeight "Player's View"].
Local Close Scope string_scope.

Record Outcome := mkOutcome { created : list WindowSpec; frames : list FrameDraws; status : Status }.

(** Lines 20-21 and 188-189: the player starts at (2, 2) facing angle 0. *)
Definition initialWorld : World :=
  mkWorld true true (mkPlayer 2 2 0) initialMouse.

Section Loop.
Context {T : Trig}.
Variable tex : Texture.

(** Lines 226-242: one iteration of the loop. *)
Definition frame (w : World) (i : FrameInput) : option (World * FrameDraws) :=
  let bo := pollEvents (birdOpen w) (birdEvents i) in
  let po := pollEvents (playerOpen w) (playerEvents i) in
  '(p', ms') ← handleInput worldMap (keys i) (pointer i) (player w) (mouse w);
  ds ← castRays worldMap (playerX p') (playerY p') (playerAngle p');
  bcmds ← renderBirdsEyeView (playerX p') (playerY p') (playerAngle p') worldMap ds;
  pcmds ← renderPlayerView tex (playerX p') (playerY p') (playerAngle p') ds;
  Some (mkWorld bo po p' ms', mkFrame bcmds pcmds).

(** Line 224: [birdEyeView.isOpen() && playerView.isOpen()]. *)
Definition running (w : World) : bool := birdOpen w && playerOpen w.

(** Lines 224-245: the loop over the inputs of successive iterations. *)
Fixpoint loop (w : World) (ins : list FrameInput) : option (list FrameDraws * World * Status) :=
  if running w then
    match ins with
    | [] => Some ([], w, Running)
    | i :: rest =>
        '(w', f) ← frame w i;
        '(fs, wf, st) ← loop w' rest;
        Some (f :: fs, wf, st)
    end
  else Some ([], w, Exited 0).
End Loop.

(** Lines 212-246. *)
Definition main {T : Trig} (texture : option Texture) (ins : list FrameInput)
    : option Outcome :=
  match texture with
  | None => Some (mkOutcome windows [] (Exited (-1)))
  | Some tex =>
      '(fs, _, st) ← loop tex initialWorld ins;
      Some (mkOutcome windows fs st)
  end.

(** The states of the loop reachable from the initial one. *)
Inductive reachable {T : Trig} (tex : Texture) : World -> Prop :=
  | reach_init : reachable tex initialWorld
  | reach_step w i w' f :
      reachable tex w -> running w = true -> frame tex w i = Some (w', f) ->
      reachable tex w'.

(** ** Lemmas *)

Definition isClosed (e : EventType) : bool := bool_decide (e = Closed).

(** Polling closes an open window exactly when one of its events is
    [Closed]. *)
Lemma pollEvents_spec b evs :
  pollEvents b evs = b && negb (existsb isClosed evs).
Proof.
  revert b. induction evs as [|e es IH]; intros b; simpl; [now rewrite andb_true_r|].
  destruct b; [|reflexivity]. rewrite IH. unfold isClosed.
  destruct (bool_decide (e = Closed)); reflexivity.
Qed.

Lemma existsb_isClosed evs : existsb isClosed evs = true <-> In Closed evs.
Proof.
  rewrite existsb_exists. unfold isClosed. split.
  - intros (e & Hin & He). apply bool_decide_eq_true in He. congruence.
  - intros Hin. exists Closed. split; [exact Hin|]. apply bool_decide_eq_true. reflexivity.
Qed.

Lemma initial_ok : player_ok worldMap (player initialWorld).
Proof. reflexivity. Qed.

(** Both windows stay open through an iteration without [Closed]. *)
Lemma running_after w i p ms :
  running w = true -> ~ In Closed (birdEvents i) -> ~ In Closed (playerEvents i) ->
  running (mkWorld (pollEvents (birdOpen w) (birdEvents i))
                   (pollEvents (playerOpen w) (playerEvents i)) p ms) = true.
Proof.
  unfold running. intros Hrun Hb Hp. apply andb_true_iff in Hrun as [Hbo Hpo].
  rewrite <- existsb_isClosed, not_true_iff_false in Hb, Hp.
  simpl. rewrite !pollEvents_spec, Hbo, Hpo, Hb, Hp. reflexivity.
Qed.

Section Step.
Context {T : Trig} {TL : TrigLaws T}.
Variable tex : Texture.

(** An iteration that completes has run [handleInput]. *)
Lemma frame_handleInput w i w' f :
  frame tex w i = Some (w', f) ->
  handleInput worldMap (keys i) (pointer i) (player w) (mouse w) = Some (player w', mouse w').
Proof.
  unfold frame. destruct (handleInput _ _ _ _ _) as [[p' ms']|];
    cbn -[castRays renderBirdsEyeView renderPlayerView]; [|discriminate].
  destruct (castRays _ _ _ _); cbn -[renderBirdsEyeView renderPlayerView]; [|discriminate].
  destruct (renderBirdsEyeView _ _ _ _ _); cbn -[renderPlayerView]; [|discriminate].
  destruct (renderPlayerView _ _ _ _ _); simpl; [|discriminate].
  intros H. injection H as <- _. reflexivity.
Qed.

(** A call of [handleInput] that completes keeps the player in an empty
    cell of [worldMap]. *)
Lemma handleInput_ok k cur p ms p' ms' :
  player_ok worldMap p -> handleInput worldMap k cur p ms = Some (p', ms') ->
  player_ok worldMap p'.
Proof.
  intros Hp (x' & y' & Hc & -> & _)%handleInput_Some. destruct (candidate_near k p) as [Hnx Hny].
  destruct (collide_preserves worldMap p _ _ worldMap_wf worldMap_walled Hp Hnx Hny)
    as (x'' & y'' & Hc' & Hok).
  rewrite Hc in Hc'. injection Hc' as -> ->. exact Hok.
Qed.

Lemma frame_ok w i w' f :
  player_ok worldMap (player w) -> frame tex w i = Some (w', f) -> player_ok worldMap (player w').
Proof. intros Hp Hf. exact (handleInput_ok _ _ _ _ _ _ Hp (frame_handleInput w i w' f Hf)). Qed.

(** The loop only ends with status 0 or keeps running. *)
Lemma loop_status ins : forall w fs wf st,
  loop tex w ins = Some (fs, wf, st) -> st = Exited 0 \/ st = Running.
Proof.
  induction ins as [|i rest IH]; intros w fs wf st; simpl; destruct (running w);
    try (intros H; injection H as _ _ <-; auto).
  destruct (frame tex w i) as [[w' f]|]; simpl; [|discriminate].
  destruct (loop tex w' rest) as [[[fs' wf'] st']|] eqn:E; simpl; [|discriminate].
  intros H. injection H as _ _ <-. exact (IH _ _ _ _ E).
Qed.

(** An iteration turns the player by the pointer's horizontal motion
    since the previous iteration (none on the first one) and records the
    pointer. *)
Lemma frame_turn w i w' f :
  frame tex w i = Some (w', f) ->
  let prev := if firstMouseMovement (mouse w) then pointer i else previousMousePosition (mouse w) in
  playerAngle (player w') ==
    playerAngle (player w) + i2f (fst (pointer i) - fst prev) * mouseSensitivity /\
  mouse w' = mkMouse false (pointer i).
Proof.
  intros Hf. apply frame_handleInput, handleInput_Some in Hf as (x' & y' & _ & Hp & Hm).
  destruct w' as [bo po p' ms']. simpl in *. subst p' ms'. split; reflexivity.
Qed.

(** Over iterations after the first, the turns add up: the angle moves by
    the pointer's total horizontal motion since the recorded position. *)
Lemma loop_turn ins : forall w fs wf,
  firstMouseMovement (mouse w) = false -> loop tex w ins = Some (fs, wf, Running) ->
  playerAngle (player wf) ==
    playerAngle (player w) +
    i2f (List.last (map (fun i => fst (pointer i)) ins) (fst (previousMousePosition (mouse w)))
         - fst (previousMousePosition (mouse w))) * mouseSensitivity.
Proof.
  induction ins as [|i rest IH]; intros w fs wf Hfirst; cbn [loop map]; destruct (running w);
    try discriminate.
  - intros H. injection H as _ <-. rewrite Z.sub_diag. unfold i2f. simpl. ring.
  - destruct (frame tex w i) as [[w' f]|] eqn:Hf; cbn -[List.last]; [|discriminate].
    destruct (loop tex w' rest) as [[[fs' wf'] st']|] eqn:E; cbn -[List.last]; [|discriminate].
    intros H. injection H as _ -> ->.
    destruct (frame_turn w i w' f Hf) as [Ha Hm]. rewrite Hfirst in Ha.
    assert (Hf' : firstMouseMovement (mouse w') = false) by (rewrite Hm; reflexivity).
    rewrite (IH w' fs' wf Hf' E), Ha, Hm. cbn [previousMousePosition].
    rewrite last_cons_default, !i2f_sub. ring.
Qed.

Hypothesis Htex : tex_ok tex.

(** One iteration from a player in an empty cell performs only in-range
    reads and leaves the player in an empty cell. *)
Lemma frame_preserves w i :
  player_ok worldMap (player w) ->
  exists p' ms' f, frame tex w i =
      Some (mkWorld (pollEvents (birdOpen w) (birdEvents i))
                    (pollEvents (playerOpen w) (playerEvents i)) p' ms', f) /\
    player_ok worldMap p'.
Proof.
  intros Hp. destruct (candidate_near (keys i) (player w)) as [Hnx Hny].
  destruct (collide_preserves worldMap (player w) _ _ worldMap_wf worldMap_walled Hp Hnx Hny)
    as (x' & y' & Hc & Hok).
  destruct (mouse_update (mouse w) (pointer i) (playerAngle (player w))) as [a ms'] eqn:Hm.
  assert (Hh : handleInput worldMap (keys i) (pointer i) (player w) (mouse w) =
               Some (mkPlayer x' y' a, ms')) by (apply handleInput_Some; rewrite Hm; eauto).
  destruct (castRays_total worldMap x' y' a) as [ds Hds].
  destruct (renderBirdsEyeView_defined worldMap x' y' a ds worldMap_wf) as [b Hb].
  destruct (renderPlayerView_total tex x' y' a ds Htex (castRays_length _ _ _ _ _ Hds)) as [c Hcmd].
  exists (mkPlayer x' y' a), ms', (mkFrame b c). split; [|exact Hok].
  unfold frame. rewrite Hh. cbn -[castRays renderBirdsEyeView renderPlayerView].
  rewrite Hds. cbn -[renderBirdsEyeView renderPlayerView]. rewrite Hb, Hcmd. reflexivity.
Qed.

(** The loop from a player in an empty cell never reads out of range, for
    any sequence of inputs, and ends with the player in an empty cell. *)
Lemma loop_ok ins : forall w,
  player_ok worldMap (player w) ->
  exists fs wf st, loop tex w ins = Some (fs, wf, st) /\ player_ok worldMap (player wf) /\
                   (st = Exited 0 \/ st = Running).
Proof.
  induction ins as [|i rest IH]; intros w Hp; simpl; destruct (running w); eauto 7.
  destruct (frame_preserves w i Hp) as (p' & ms' & f & -> & Hok). simpl.
  destruct (IH (mkWorld (pollEvents (birdOpen w) (birdEvents i))
    (pollEvents (playerOpen w) (playerEvents i)) p' ms') Hok) as (fs & wf & st & -> & Hwf & Hst). simpl. eauto 7.
Qed.

(** While no window receives [Closed], the loop runs one frame per input. *)
Lemma loop_open ins : forall w,
  player_ok worldMap (player w) -> running w = true ->
  Forall (fun i => ~ In Closed (birdEvents i) /\ ~ In Closed (playerEvents i)) ins ->
  exists fs wf, loop tex w ins = Some (fs, wf, Running) /\ length fs = length ins.
Proof.
  induction ins as [|i rest IH]; intros w Hp Hrun Hall; simpl; rewrite Hrun; [eauto|].
  inversion Hall as [|? ? [Hb Hpl] Hrest]; subst.
  destruct (frame_preserves w i Hp) as (p' & ms' & f & -> & Hok). simpl.
  destruct (IH (mkWorld (pollEvents (birdOpen w) (birdEvents i))
                       (pollEvents (playerOpen w) (playerEvents i)) p' ms')
             Hok (running_after w i p' ms' Hrun Hb Hpl) Hrest) as (fs & wf & -> & Hlen).
  exists (f :: fs), wf. simpl. auto.
Qed.
End Step.

(** ** Properties of the loop *)

Section Properties.
Context {T : Trig} {TL : TrigLaws T}.

(** C12: in every state the loop reaches, the player stands in an
    empty cell of [worldMap]. *)
Theorem reachable_player_ok tex w :
  reachable tex w -> player_ok worldMap (player w).
Proof.
  induction 1 as [|w i w' f _ IH _ Hf]; [exact initial_ok|].
  exact (frame_ok tex w i w' f IH Hf).
Qed.

(** C11: whatever the events, keys and pointer of each iteration,
    a run with a loaded texture performs only in-range reads of the map
    and of the distances (it returns an outcome) and never exits with -1. *)
Theorem main_safe tex ins :
  tex_ok tex ->
  exists o, main (Some tex) ins = Some o /\ created o = windows /\
            (status o = Exited 0 \/ status o = Running).
Proof.
  intros Htex. destruct (loop_ok tex Htex ins initialWorld initial_ok) as (fs & wf & st & Hl & _ & Hst).
  simpl. rewrite Hl. simpl. eauto.
Qed.

(** C15: [main] exits with -1 exactly when the texture fails to
    load, and in every case both windows have been created first. *)
Theorem main_load_failure texture ins o :
  main texture ins = Some o ->
  created o = windows /\ (status o = Exited (-1) <-> texture = None).
Proof.
  destruct texture as [tex|]; simpl.
  - destruct (loop tex initialWorld ins) as [[[fs wf] st]|] eqn:E; simpl; [|discriminate].
    intros H. injection H as <-. simpl. split; [reflexivity|].
    split; [intros ->; destruct (loop_status tex ins _ _ _ _ E); discriminate | discriminate].
  - intros H. injection H as <-. simpl. tauto.
Qed.

(** C13: when either window receives [Closed] in an iteration, that
    iteration still renders its frame and the loop then exits with status 0,
    whatever the other window's state. *)
Theorem loop_stops_on_close tex w i rest :
  tex_ok tex -> player_ok worldMap (player w) -> running w = true ->
  In Closed (birdEvents i) \/ In Closed (playerEvents i) ->
  exists f w', loop tex w (i :: rest) = Some ([f], w', Exited 0).
Proof.
  intros Htex Hp Hrun Hcl. destruct (frame_preserves tex Htex w i Hp) as (p' & ms' & f & Hf & _).
  exists f. simpl. rewrite Hrun, Hf. simpl. unfold running. simpl.
  rewrite !pollEvents_spec. unfold running in Hrun. apply andb_true_iff in Hrun as [-> ->].
  simpl. rewrite <- !existsb_isClosed in Hcl.
  destruct Hcl as [-> | ->]; [|destruct (existsb isClosed (birdEvents i))]; destruct rest; simpl; eauto.
Qed.

(** C14: from the start, while no window receives [Closed], the loop
    renders one frame per iteration and keeps running, and the player's
    angle is 0.002 times the pointer's horizontal displacement between the
    first iteration and the last: the first iteration never turns, and the
    turns of the later ones add up whatever path the pointer took. *)
Theorem loop_runs_while_open tex i0 rest :
  tex_ok tex ->
  Forall (fun i => ~ In Closed (birdEvents i) /\ ~ In Closed (playerEvents i)) (i0 :: rest) ->
  exists fs wf, loop tex initialWorld (i0 :: rest) = Some (fs, wf, Running) /\
    length fs = S (length rest) /\
    playerAngle (player wf) ==
      i2f (List.last (map (fun i => fst (pointer i)) rest) (fst (pointer i0)) - fst (pointer i0))
      * mouseSensitivity.
Proof.
  intros Htex Hall. inversion Hall as [|? ? [Hb Hpl] Hrest]; subst.
  destruct (frame_preserves tex Htex initialWorld i0 initial_ok) as (p' & ms' & f & Hf & Hok).
  set (w' := mkWorld _ _ p' ms') in Hf.
  destruct (loop_open tex Htex rest w' Hok (running_after initialWorld i0 p' ms' eq_refl Hb Hpl) Hrest)
    as (fs & wf & E & Hlen).
  exists (f :: fs), wf. split; [simpl; rewrite Hf; simpl; rewrite E; reflexivity|].
  split; [simpl; congruence|].
  destruct (frame_turn tex initialWorld i0 w' f Hf) as [Ha Hm].
  rewrite (loop_turn tex rest w' fs wf ltac:(rewrite Hm; reflexivity) E), Ha, Hm.
  cbn [previousMousePosition firstMouseMovement mouse player initialWorld initialMouse playerAngle].
  rewrite Z.sub_diag. unfold i2f at 1. simpl. ring.
Qed.
End Properties.

(** ** Witnesses *)

Definition tex0 : Texture := mkTexture 64 64 (fun _ _ => white).

Definition closeInput : FrameInput := mkInput [OtherEvent; Closed] [] (mkKeys true false false false) (3, 4)%Z.

Definition turnInput : FrameInput := mkInput [] [OtherEvent] (mkKeys true false false true) (9, 1)%Z.

Definition openInput : FrameInput := mkInput [OtherEvent] [OtherEvent] (mkKeys false false true false) (5, 4)%Z.

Lemma reachable_player_ok_witness : player_ok worldMap (player initialWorld).
Proof. apply (@reachable_player_ok ratTrig ratTrig_laws tex0). apply reach_init. Defined.

Lemma main_load_failure_witness :
  created (mkOutcome windows [] (Exited (-1))) = windows /\
  (status (mkOutcome windows [] (Exited (-1))) = Exited (-1) <-> (None : option Texture) = None).
Proof. apply (@main_load_failure ratTrig None [openInput]). reflexivity. Defined.

Lemma main_safe_witness :
  exists o, @main ratTrig (Some tex0) [openInput; closeInput] = Some o /\ created o = windows /\
            (status o = Exited 0 \/ status o = Running).
Proof. apply (@main_safe ratTrig ratTrig_laws tex0 [openInput; closeInput]). split; reflexivity. Defined.

Lemma loop_stops_on_close_witness :
  exists f w', @loop ratTrig tex0 initialWorld [closeInput; openInput] = Some ([f], w', Exited 0).
Proof.
  apply (@loop_stops_on_close ratTrig ratTrig_laws tex0 initialWorld closeInput [openInput]);
    [split; reflexivity | reflexivity | reflexivity | simpl; tauto].
Defined.

Lemma loop_runs_while_open_witness :
  exists fs wf, @loop ratTrig tex0 initialWorld [openInput; turnInput] = Some (fs, wf, Running) /\
    length fs = 2%nat /\
    playerAngle (player wf) == i2f (List.last (map (fun i => fst (pointer i)) [turnInput]) 5%Z - 5)%Z
                               * mouseSensitivity.
Proof.
  apply (@loop_runs_while_open ratTrig ratTrig_laws tex0 openInput [turnInput]);
    [split; reflexivity |].
  repeat constructor; simpl; intuition discriminate.
Defined.
